(** * afu_platform_config: port matching, override merge and legacy clean-up

    A shallow embedding of the three pieces of
    [platforms/scripts/platmgr/tools/afu_platform_config.py] that carry
    logic: [matchAfuPorts], [injectAfuIfcChanges] and the legacy clean-up
    inside [getAfuIfc], followed by the properties of the specification
    that concern them.

    Conventions of the embedding.
    - JSON data is an inductive [value]; floating point numbers are left
      out.  A Python [dict] is an association list in insertion order,
      which is the order [keys()] and [values()] iterate in.
    - [errorExit] is the outcome [Exit m]; [m] records which call site
      fired and the arguments handed to [format].  An uncaught Python
      exception ([KeyError], [TypeError], [AttributeError]) is [PyExc].
    - Printing under [args.verbose] is left out; the subscripts evaluated
      only for printing are kept, since they can raise. *)

From Stdlib Require Import String ZArith List Bool Lia Permutation.
Import ListNotations.

Local Open Scope string_scope.
Local Open Scope Z_scope.

(** ** JSON values and Python dictionaries *)

#[local] Set Warnings "-register-all".

Inductive value : Type :=
| VNone
| VBool (b : bool)
| VInt (n : Z)
| VStr (s : string)
| VList (l : list value)
| VDict (d : list (string * value)).

Definition dict : Type := list (string * value).

(** [d[k]] on a dictionary, [None] standing for [KeyError]. *)
Fixpoint get (k : string) (d : dict) : option value :=
  match d with
  | [] => None
  | (k', v) :: r => if String.eqb k k' then Some v else get k r
  end.

(** [k in d]. *)
Definition mem (k : string) (d : dict) : bool :=
  match get k d with Some _ => true | None => false end.

(** [d[k] = v]: an existing key keeps its position, a new key goes last. *)
Fixpoint set (k : string) (v : value) (d : dict) : dict :=
  match d with
  | [] => [(k, v)]
  | (k', v') :: r =>
      if String.eqb k k' then (k, v) :: r else (k', v') :: set k v r
  end.

(** Removal of key [k], the state change of [d.pop(k)].  Keys of a Python
    dictionary are unique, so removing every entry for [k] removes the one
    there is. *)
Fixpoint del (k : string) (d : dict) : dict :=
  match d with
  | [] => []
  | (k', v') :: r =>
      if String.eqb k k' then del k r else (k', v') :: del k r
  end.

Definition keys (d : dict) : list string := map fst d.
Definition values (d : dict) : list value := map snd d.

(** Python truth value of a JSON value. *)
Definition truthy (v : value) : bool :=
  match v with
  | VNone => false
  | VBool b => b
  | VInt n => negb (Z.eqb n 0)
  | VStr s => negb (String.eqb s "")
  | VList l => match l with [] => false | _ => true end
  | VDict d => match d with [] => false | _ => true end
  end.

(** ** Outcomes *)

(** One constructor per [errorExit] call site, with the [format]
    arguments in the order of the call. *)
Inductive exit_msg : Type :=
| ModulePortsNotDict (file_path : value)
    (* "module-ports is not a dictionary in {0}" *)
| ModulePortsOfferedNotDict (file_path : value)
    (* "module-ports-offered is not a dictionary in {0}" *)
| NeedsPort (afu_name cls ifc plat_name : value)
    (* "{0} needs port {1}:{2} that {3} doesn't offer" *)
| ExpectsVector (afu_name cls ifc plat_name : value)
    (* "{0} port {1}:{2} expects a vector but the platform {3} offers
       only a non-vector!" *)
| ExpectsNonVector (afu_name cls ifc plat_name : value)
    (* "{0} port {1}:{2} expects a non-vector but the platform {3} offers
       only a vector!" *)
| RequiresMoreEntries (afu_name cls ifc plat_name : value)
    (* "{0} port {1}:{2} requires more vector entries than {3} provides!" *)
| RequiresMoreFewerEntries (afu_name cls ifc plat_name : value)
    (* "{0} port {1}:{2} requires more fewer entries than {3} provides!" *)
| ModulePortsNotList (fname : value)
    (* "module-ports is not a list in {0}" *)
| PortNotDict (fname port : value)
    (* "module-ports in {0} must be dictionaries ({1})" *)
| MissingClass (fname : value)
    (* "Each module-ports must have a class in {0}" *)
| MissingInterface (port fname : value)
    (* "module port {0} is missing 'interface' in {1}" *)
| MayNotUpdate (c k fname : value)
    (* "AFU may not update module-port class '{0}', field '{1}' ({2})" *)
| NoTopInterfaceClass (afu_json : value)
    (* "No afu-image:afu-top-interface:class found in " + afu_json *).

(** [OutOfModel] marks the few places where the embedding stops following
    Python: ordering two lists, a base [module-ports] that is a list or a
    string in [injectAfuIfcChanges], and a new port whose [class] is not a
    string (Python would store it under a non-string key). *)
Inductive result (A : Type) : Type :=
| Ok (a : A)
| Exit (m : exit_msg)
| PyExc
| OutOfModel.

Arguments Ok {A} a.
Arguments Exit {A} m.
Arguments PyExc {A}.
Arguments OutOfModel {A}.

Definition bind {A B : Type} (r : result A) (f : A -> result B) : result B :=
  match r with
  | Ok a => f a
  | Exit m => Exit m
  | PyExc => PyExc
  | OutOfModel => OutOfModel
  end.

Notation "x <- e ;; k" := (bind e (fun x => k))
  (at level 61, e at next level, right associativity).

(** The error taxonomy of the specification (section 7), as a
    classification of the call sites. *)
Inductive error_kind : Type :=
| SchemaError
| MissingField
| UnauthorizedOverride
| UnsatisfiedRequirement
| VectorMismatch
| InsufficientEntries.

Definition kind_of (m : exit_msg) : error_kind :=
  match m with
  | ModulePortsNotDict _ | ModulePortsOfferedNotDict _
  | ModulePortsNotList _ | PortNotDict _ _ => SchemaError
  | MissingClass _ | MissingInterface _ _ | NoTopInterfaceClass _ =>
      MissingField
  | MayNotUpdate _ _ _ => UnauthorizedOverride
  | NeedsPort _ _ _ _ => UnsatisfiedRequirement
  | ExpectsVector _ _ _ _ | ExpectsNonVector _ _ _ _ => VectorMismatch
  | RequiresMoreEntries _ _ _ _ | RequiresMoreFewerEntries _ _ _ _ =>
      InsufficientEntries
  end.

(** ** Python operators on values *)

(** [v[k]] for a string [k]: [KeyError] on a missing key, [TypeError] on
    anything that is not a dictionary. *)
Definition getitem (v : value) (k : string) : result value :=
  match v with
  | VDict d => match get k d with Some x => Ok x | None => PyExc end
  | _ => PyExc
  end.

(** [a + b] where the code has a string on one side: any other operand
    raises [TypeError]. *)
Definition str_add (a b : value) : result value :=
  match a, b with
  | VStr s, VStr t => Ok (VStr (s ++ t))
  | _, _ => PyExc
  end.

(** Booleans are integers in Python. *)
Definition as_num (v : value) : option Z :=
  match v with
  | VInt n => Some n
  | VBool b => Some (if b then 1 else 0)
  | _ => None
  end.

(** [sys.maxsize] of a 64-bit CPython. *)
Definition maxsize : Z := 9223372036854775807.

(** [v == n] for an integer [n]. *)
Definition eq_int (v : value) (n : Z) : bool :=
  match as_num v with Some m => Z.eqb m n | None => false end.

(** The ordering operators: numbers with numbers, strings with strings
    (code point order, which is byte order on UTF-8); [TypeError]
    otherwise. *)
Definition py_cmp (num : Z -> Z -> bool) (str : string -> string -> bool)
    (a b : value) : result bool :=
  match as_num a, as_num b with
  | Some x, Some y => Ok (num x y)
  | _, _ =>
      match a, b with
      | VStr s, VStr t => Ok (str s t)
      | VList _, VList _ => OutOfModel
      | _, _ => PyExc
      end
  end.

Definition py_lt : value -> value -> result bool :=
  py_cmp Z.ltb String.ltb.
Definition py_le : value -> value -> result bool :=
  py_cmp Z.leb String.leb.
Definition py_gt : value -> value -> result bool :=
  py_cmp Z.gtb (fun s t => String.ltb t s).
Definition py_ge : value -> value -> result bool :=
  py_cmp Z.geb (fun s t => String.leb t s).

(** Short-circuit [and] over conditions that may raise. *)
Definition and_then (a b : result bool) : result bool :=
  x <- a ;; if x then b else Ok false.

Definition not_ (a : result value) : result bool :=
  v <- a ;; Ok (negb (truthy v)).

Definition is_ (a : result value) : result bool :=
  v <- a ;; Ok (truthy v).

(** ** matchAfuPorts *)

(** The dictionary [{'afu': port, 'plat': plat_match}] with its optional
    ['num-entries']. *)
Record port_match : Type := mkMatch {
  afu : value;
  plat : value;
  num_entries : option value
}.

(** The size chosen when both ports are vectors, before it is
    constrained (source lines 132 to 143). *)
Definition pick_entries (port plat_match : value) : result value :=
  a <- and_then
         (m <- getitem port "max-entries" ;; Ok (eq_int m maxsize))
         (and_then
            (Ok (match port with VDict p => mem "default-entries" p
                 | _ => false end))
            (and_then
               (x <- getitem port "default-entries" ;;
                y <- getitem plat_match "min-entries" ;;
                py_ge x y)
               (x <- getitem port "default-entries" ;;
                y <- getitem plat_match "max-entries" ;;
                py_le x y))) ;;
  if a then getitem port "default-entries"
  else
    b <- and_then
           (m <- getitem port "max-entries" ;; Ok (eq_int m maxsize))
           (and_then
              (Ok (match plat_match with
                   | VDict p => mem "default-entries" p
                   | _ => false end))
              (x <- getitem plat_match "default-entries" ;;
               y <- getitem port "min-entries" ;;
               py_ge x y)) ;;
    if b then getitem plat_match "default-entries"
    else getitem plat_match "max-entries".

(** The size after it is constrained to what the AFU accepts and checked
    against both minima (source lines 146 to 157). *)
Definition constrain_entries (afu_name plat_name cls ifc : value)
    (port plat_match entries : value) : result value :=
  mx <- getitem port "max-entries" ;;
  over <- py_gt entries mx ;;
  let entries := if over then mx else entries in
  mn <- getitem port "min-entries" ;;
  under <- py_lt entries mn ;;
  if under then Exit (RequiresMoreEntries afu_name cls ifc plat_name)
  else
    pmn <- getitem plat_match "min-entries" ;;
    under' <- py_lt entries pmn ;;
    if under' then Exit (RequiresMoreFewerEntries afu_name cls ifc plat_name)
    else Ok entries.

(** One iteration of the loop over the requested ports: [Ok None] when
    nothing is appended to [afu_ports], [Ok (Some m)] when [m] is. *)
Definition match_port (afu_name plat_name : value) (offered : dict)
    (port : value) : result (option port_match) :=
  cls <- getitem port "class" ;;
  k1 <- str_add cls (VStr "/") ;;
  ifc <- getitem port "interface" ;;
  plat_key <- str_add k1 ifc ;;
  match plat_key with
  | VStr key =>
      if negb (mem key offered) then
        np <- not_ (getitem port "optional") ;;
        if np then Exit (NeedsPort afu_name cls ifc plat_name)
        else Ok None
      else
        plat_match <- getitem (VDict offered) key ;;
        c1 <- and_then (not_ (getitem port "vector"))
                       (not_ (getitem plat_match "vector")) ;;
        if c1 then Ok (Some (mkMatch port plat_match None))
        else
          c2 <- and_then (is_ (getitem port "vector"))
                         (not_ (getitem plat_match "vector")) ;;
          if c2 then Exit (ExpectsVector afu_name cls ifc plat_name)
          else
            c3 <- and_then (not_ (getitem port "vector"))
                           (is_ (getitem plat_match "vector")) ;;
            if c3 then Exit (ExpectsNonVector afu_name cls ifc plat_name)
            else
              e <- pick_entries port plat_match ;;
              n <- constrain_entries afu_name plat_name cls ifc
                     port plat_match e ;;
              Ok (Some (mkMatch port plat_match (Some n)))
  | _ => PyExc
  end.

Definition append_match (afu_ports : list port_match)
    (m : option port_match) : list port_match :=
  match m with Some x => (afu_ports ++ [x])%list | None => afu_ports end.

(** The loop [for port in list(afu_ifc_db['module-ports'].values())]. *)
Fixpoint match_ports (afu_name plat_name : value) (offered : dict)
    (ports : list value) (afu_ports : list port_match)
    : result (list port_match) :=
  match ports with
  | [] => Ok afu_ports
  | port :: rest =>
      m <- match_port afu_name plat_name offered port ;;
      match_ports afu_name plat_name offered rest (append_match afu_ports m)
  end.

(** The subscripts [r['class']] and [r['interface']] of the verbose
    listing, for every port of a dictionary. *)
Definition listing_ok (d : dict) : bool :=
  forallb (fun r =>
             match getitem r "class", getitem r "interface" with
             | Ok _, Ok _ => true
             | _, _ => false
             end) (values d).

Definition matchAfuPorts (verbose : bool) (afu_ifc_db platform_db : dict)
    : result (list port_match) :=
  afu_name <- getitem (VDict afu_ifc_db) "file_name" ;;
  plat_name <- getitem (VDict platform_db) "file_name" ;;
  mp <- getitem (VDict afu_ifc_db) "module-ports" ;;
  match mp with
  | VDict ports =>
      mpo <- getitem (VDict platform_db) "module-ports-offered" ;;
      match mpo with
      | VDict offered =>
          if verbose && negb (listing_ok ports && listing_ok offered)
          then PyExc
          else match_ports afu_name plat_name offered (values ports) []
      | _ =>
          p <- getitem (VDict platform_db) "file_path" ;;
          Exit (ModulePortsOfferedNotDict p)
      end
  | _ =>
      p <- getitem (VDict afu_ifc_db) "file_path" ;;
      Exit (ModulePortsNotDict p)
  end.

(** ** injectAfuIfcChanges *)

Definition legal_afu_ifc_update_classes : list string :=
  ["default-entries"; "max-entries"; "min-entries"; "optional"; "params"].

(** [k in legal_afu_ifc_update_classes]. *)
Definition legal (k : string) : bool :=
  existsb (String.eqb k) legal_afu_ifc_update_classes.

(** The statement [afu_ifc_db['module-ports'][c][k] = v].  Both
    subscripts can raise, and so does the store when the port found under
    [c] is not a dictionary. *)
Definition update_field (c k : string) (v : value) (afu_ifc_db : dict)
    : dict * result unit :=
  match get "module-ports" afu_ifc_db with
  | Some (VDict ports) =>
      match get c ports with
      | Some (VDict p) =>
          (set "module-ports" (VDict (set c (VDict (set k v p)) ports))
             afu_ifc_db, Ok tt)
      | _ => (afu_ifc_db, PyExc)
      end
  | _ => (afu_ifc_db, PyExc)
  end.

(** The loop [for k in list(port.keys())] of an update: every field is
    checked and written before the next one is looked at. *)
Fixpoint override_fields (fname : value) (c : string) (port : dict)
    (ks : list string) (afu_ifc_db : dict) : dict * result unit :=
  match ks with
  | [] => (afu_ifc_db, Ok tt)
  | k :: ks' =>
      if String.eqb k "class" then
        override_fields fname c port ks' afu_ifc_db
      else if negb (legal k) then
        (afu_ifc_db, Exit (MayNotUpdate (VStr c) (VStr k) fname))
      else
        match get k port with
        | Some v =>
            match update_field c k v afu_ifc_db with
            | (db', Ok _) => override_fields fname c port ks' db'
            | r => r
            end
        | None => (afu_ifc_db, PyExc)
        end
  end.

(** One iteration of the loop over [afu_ifc_req['module-ports']]. *)
Definition inject_port (fname : value) (port : value) (afu_ifc_db : dict)
    : dict * result unit :=
  match port with
  | VDict p =>
      match get "class" p with
      | None => (afu_ifc_db, Exit (MissingClass fname))
      | Some c =>
          match get "module-ports" afu_ifc_db with
          | Some (VDict ports) =>
              match c with
              | VStr cs =>
                  if negb (mem cs ports) then
                    if negb (mem "interface" p) then
                      (afu_ifc_db, Exit (MissingInterface port fname))
                    else
                      (set "module-ports" (VDict (set cs port ports))
                         afu_ifc_db, Ok tt)
                  else override_fields fname cs p (keys p) afu_ifc_db
              | VList _ | VDict _ =>
                  (* unhashable type *)
                  (afu_ifc_db, PyExc)
              | VNone | VBool _ | VInt _ =>
                  (* never a key of a JSON object *)
                  if negb (mem "interface" p) then
                    (afu_ifc_db, Exit (MissingInterface port fname))
                  else (afu_ifc_db, OutOfModel)
              end
          | Some (VList _) | Some (VStr _) => (afu_ifc_db, OutOfModel)
          | _ =>
              (* KeyError, or [in] on something that is not iterable *)
              (afu_ifc_db, PyExc)
          end
      end
  | _ => (afu_ifc_db, Exit (PortNotDict fname port))
  end.

(** The loop [for port in afu_ifc_req['module-ports']], threading the
    database that the iterations mutate.  The database is returned with
    every outcome: it is the state at the point where the run stopped. *)
Fixpoint inject_ports (fname : value) (records : list value)
    (afu_ifc_db : dict) : dict * result unit :=
  match records with
  | [] => (afu_ifc_db, Ok tt)
  | port :: rest =>
      match inject_port fname port afu_ifc_db with
      | (db', Ok _) => inject_ports fname rest db'
      | r => r
      end
  end.

(** A record added by [afu_ifc_db['module-ports'][c] = port] is the object
    held by [afu_ifc_req]; the later writes to it are not seen by the
    loop, which has moved past it, so the request is read only here. *)
Definition injectAfuIfcChanges (afu_ifc_db afu_ifc_req : dict)
    : dict * result unit :=
  match get "file_path" afu_ifc_req with
  | None => (afu_ifc_db, PyExc)
  | Some fname =>
      match get "module-ports" afu_ifc_req with
      | None => (afu_ifc_db, Ok tt)
      | Some (VList records) => inject_ports fname records afu_ifc_db
      | Some _ => (afu_ifc_db, Exit (ModulePortsNotList fname))
      end
  end.

(** ** getAfuIfc: the descriptor read from the AFU's JSON file *)

(** The two legacy renamings (source lines 226 to 236). *)
Definition clean_legacy (afu_ifc : dict) : dict :=
  let afu_ifc :=
    match get "module-arguments" afu_ifc with
    | Some v => set "module-ports" v (del "module-arguments" afu_ifc)
    | None => afu_ifc
    end in
  match get "name" afu_ifc with
  | Some v => set "class" v (del "name" afu_ifc)
  | None => afu_ifc
  end.

(** The body of the [try] block.  A top-level interface that is not a
    dictionary raises in every case, at [in], at [pop] or at the final
    subscript. *)
Definition top_interface (data : value) : result dict :=
  img <- getitem data "afu-image" ;;
  ifc <- getitem img "afu-top-interface" ;;
  match ifc with
  | VDict d =>
      let d' := clean_legacy d in
      _ <- getitem (VDict d') "class" ;;
      Ok d'
  | _ => PyExc
  end.

(** [getAfuIfc] from the parsed file on (source lines 223 to 254), the
    path taken when [--ifc] is not given and the JSON file was found and
    read.  The branch for [--ifc] (lines 177 to 181), which returns
    [class] with [file_path] and [file_name] set to [None], is not part
    of this definition.  [default_ifc] is [args.default_ifc];
    [file_name] is the base name of [afu_json] without its extension,
    which [os.path] computes. *)
Definition getAfuIfc (default_ifc afu_json file_name data : value)
    : result dict :=
  afu_ifc <- match top_interface data with
             | Ok d => Ok d
             | _ =>
                 if truthy default_ifc then Ok [("class", default_ifc)]
                 else Exit (NoTopInterfaceClass afu_json)
             end ;;
  Ok (set "file_name" file_name (set "file_path" afu_json afu_ifc)).

(** * Definitions used to state the properties *)

(** The integer bounds of a vector port. *)
Record bounds : Type := mkBounds {
  min_entries : Z;
  max_entries : Z;
  default_entries : option Z
}.

(** [p] names the compound key [c]/[i]. *)
Definition keyed (p : dict) (c i : string) : Prop :=
  get "class" p = Some (VStr c) /\ get "interface" p = Some (VStr i).

(** [p] has a true [vector] field. *)
Definition is_vector (p : dict) : Prop :=
  exists v, get "vector" p = Some v /\ truthy v = true.

(** [p] is a vector port whose entry counts are the integers of [b]. *)
Definition vector_port (p : dict) (b : bounds) : Prop :=
  is_vector p /\
  get "min-entries" p = Some (VInt (min_entries b)) /\
  get "max-entries" p = Some (VInt (max_entries b)) /\
  get "default-entries" p = option_map VInt (default_entries b).

(** The decision chain of the specification (section 4.3, step 3), written
    from its words: rule a, else rule b, else rule c, then the clamp. *)
Definition rule_a (rq off : bounds) : option Z :=
  match default_entries rq with
  | Some d =>
      if (max_entries rq =? maxsize) && (min_entries off <=? d)
         && (d <=? max_entries off)
      then Some d else None
  | None => None
  end.

Definition rule_b (rq off : bounds) : option Z :=
  match default_entries off with
  | Some d =>
      if (max_entries rq =? maxsize) && (min_entries rq <=? d)
      then Some d else None
  | None => None
  end.

Definition chosen (rq off : bounds) : Z :=
  match rule_a rq off with
  | Some d => d
  | None =>
      match rule_b rq off with
      | Some d => d
      | None => max_entries off
      end
  end.

Definition clamped (rq off : bounds) : Z :=
  if max_entries rq <? chosen rq off then max_entries rq else chosen rq off.

(** The fields of record [r] listed in [ks], written one after the other
    onto the port [base]; [class] is skipped. *)
Fixpoint apply_fields (r : dict) (ks : list string) (base : dict) : dict :=
  match ks with
  | [] => base
  | k :: ks' =>
      if String.eqb k "class" then apply_fields r ks' base
      else
        match get k r with
        | Some v => apply_fields r ks' (set k v base)
        | None => apply_fields r ks' base
        end
  end.

(** The longest prefix of [ks] made of [class] and permitted fields. *)
Fixpoint legal_prefix (ks : list string) : list string :=
  match ks with
  | [] => []
  | k :: ks' =>
      if String.eqb k "class" || legal k then k :: legal_prefix ks' else []
  end.

(** The [module-ports] mapping after record [r] of class [c] has been
    merged without error. *)
Definition merge_record (c : string) (r : dict) (ports : dict) : dict :=
  match get c ports with
  | None => set c (VDict r) ports
  | Some (VDict base) =>
      set c (VDict (apply_fields r (keys r) base)) ports
  | Some _ => ports
  end.

(** The database with [ports] stored under [module-ports]. *)
Definition with_ports (ports : dict) (afu_ifc_db : dict) : dict :=
  set "module-ports" (VDict ports) afu_ifc_db.

(** The class of a record, when it is a dictionary with a string for
    class. *)
Definition class_of (r : value) : option string :=
  match r with
  | VDict p =>
      match get "class" p with Some (VStr c) => Some c | _ => None end
  | _ => None
  end.

(** [r] adds a class that the mapping [ports] lacks. *)
Definition extends (ports : dict) (r : value) : Prop :=
  exists p c,
    r = VDict p /\ get "class" p = Some (VStr c) /\
    mem "interface" p = true /\ get c ports = None.

(** The entry under which a new record is stored. *)
Definition entry (r : value) : string * value :=
  (match class_of r with Some c => c | None => "" end, r).

(** ** Scenario data (section 8 of the specification) and variations *)

Definition req_clk : dict :=
  [("class", VStr "clk"); ("interface", VStr "std");
   ("optional", VBool false); ("vector", VBool true);
   ("min-entries", VInt 1); ("max-entries", VInt maxsize);
   ("default-entries", VInt 4)].

Definition off_clk : dict :=
  [("class", VStr "clk"); ("interface", VStr "std"); ("vector", VBool true);
   ("min-entries", VInt 2); ("max-entries", VInt 8)].

(** The requirement without its [default-entries]. *)
Definition req_clk_nodef : dict := del "default-entries" req_clk.

(** Offerings whose own default lies outside their own window. *)
Definition off_default_above_max : dict :=
  [("class", VStr "clk"); ("interface", VStr "std"); ("vector", VBool true);
   ("min-entries", VInt 2); ("max-entries", VInt 8);
   ("default-entries", VInt 10)].

Definition off_empty_window : dict :=
  [("class", VStr "clk"); ("interface", VStr "std"); ("vector", VBool true);
   ("min-entries", VInt 5); ("max-entries", VInt 3);
   ("default-entries", VInt 6)].

(** Two requirement ports nobody offers, and the two mappings that hold
    them in either order. *)
Definition req_named (c : string) : dict := set "class" (VStr c) req_clk.

Definition afu_db_z_then_a : dict :=
  [("file_name", VStr "afu");
   ("module-ports",
    VDict [("z", VDict (req_named "z")); ("a", VDict (req_named "a"))])].

Definition afu_db_a_then_z : dict :=
  [("file_name", VStr "afu");
   ("module-ports",
    VDict [("a", VDict (req_named "a")); ("z", VDict (req_named "z"))])].

Definition plat_db_empty : dict :=
  [("file_name", VStr "plat"); ("module-ports-offered", VDict [])].

(** A base database with the single port [clk], and an update record
    that names a permitted field before a forbidden one. *)
Definition afu_db_clk : dict :=
  [("file_name", VStr "afu"); ("module-ports", VDict [("clk", VDict req_clk)])].

Definition rec_min_then_interface : dict :=
  [("class", VStr "clk"); ("min-entries", VInt 2); ("interface", VStr "x")].

(** The record [{class: n, interface: x}], twice in one request. *)
Definition rec_new_n : dict := [("class", VStr "n"); ("interface", VStr "x")].

(** Two updates of the field [min-entries] of port [clk]. *)
Definition rec_min (n : Z) : value :=
  VDict [("class", VStr "clk"); ("min-entries", VInt n)].

Definition req_overrides (records : list value) : dict :=
  [("file_path", VStr "afu.json"); ("module-ports", VList records)].

Definition rec_new_m : dict := [("class", VStr "m"); ("interface", VStr "y")].

Definition afu_ifc_both : dict :=
  [("class", VStr "ccip_std_afu");
   ("module-ports", VList [VDict rec_new_n]);
   ("module-arguments", VList [rec_min 2])].

(** * Definitions for the further properties *)

(** [port] names a key [class/interface] that [offered] holds. *)
Definition has_offer (offered : dict) (port : value) : bool :=
  match port with
  | VDict p =>
      match get "class" p, get "interface" p with
      | Some (VStr c), Some (VStr i) => mem ((c ++ "/") ++ i) offered
      | _, _ => false
      end
  | _ => false
  end.

(** [m] pairs a requested port with the offering stored under the
    port's key. *)
Definition pairs_with_offer (offered : dict) (m : port_match) : Prop :=
  exists p c i,
    afu m = VDict p /\ keyed p c i /\
    get ((c ++ "/") ++ i) offered = Some (plat m).

(** A requirement set with the satisfied port [clk] and an optional port
    [z] nobody offers, and the platform that offers [clk]. *)
Definition afu_db_clk_and_optional : dict :=
  [("file_name", VStr "afu");
   ("module-ports",
    VDict [("z", VDict (set "optional" (VBool true) (req_named "z")));
           ("clk", VDict req_clk)])].

Definition plat_db_clk : dict :=
  [("file_name", VStr "plat");
   ("module-ports-offered", VDict [("clk/std", VDict off_clk)])].

(** The same platform with one more entry, an empty dictionary. *)
Definition plat_db_clk_and_stray : dict :=
  [("file_name", VStr "plat");
   ("module-ports-offered",
    VDict [("clk/std", VDict off_clk); ("stray", VDict [])])].

(** A base set with the two ports [clk] and [a]. *)
Definition afu_db_clk_a : dict :=
  [("file_name", VStr "afu");
   ("module-ports",
    VDict [("clk", VDict req_clk); ("a", VDict (req_named "a"))])].

(** The dictionary under [afu-image], [afu-top-interface] of a parsed
    file, when there is one. *)
Definition descriptor (data : value) : option dict :=
  match getitem data "afu-image" with
  | Ok img =>
      match getitem img "afu-top-interface" with
      | Ok (VDict d) => Some d
      | _ => None
      end
  | _ => None
  end.

(** A parsed AFU file with the top-level interface [d]. *)
Definition afu_file (d : dict) : value :=
  VDict [("afu-image", VDict [("afu-top-interface", VDict d)])].

(** * Search paths and the command environment

    The functions of [afu_platform_config.py] and [afu_synth_setup.py]
    that compute directory search paths from the process environment.
    [os.environ] is an association list from names to strings; the file
    system is consulted through the predicates [os.path.isdir] and
    [os.path.exists], which the functions take as arguments. *)

From Stdlib Require Import Ascii.

Definition environ : Type := list (string * string).

(** [env[k]], [None] standing for [k not in env]. *)
Fixpoint env_get (k : string) (env : environ) : option string :=
  match env with
  | [] => None
  | (k', v) :: r => if String.eqb k k' then Some v else env_get k r
  end.

(** [env[k] = v]. *)
Fixpoint env_set (k v : string) (env : environ) : environ :=
  match env with
  | [] => [(k, v)]
  | (k', v') :: r =>
      if String.eqb k k' then (k, v) :: r else (k', v') :: env_set k v r
  end.

(** [s.split(sep)] for a separator of one character: one piece more than
    there are separators, so never the empty list. *)
Fixpoint split_on (sep : ascii) (s : string) : list string :=
  match s with
  | EmptyString => [EmptyString]
  | String ch r =>
      if Ascii.eqb ch sep then EmptyString :: split_on sep r
      else
        match split_on sep r with
        | h :: t => String ch h :: t
        | [] => [String ch EmptyString]
        end
  end.

(** [s.rstrip(ch)] for one character. *)
Fixpoint rstrip (ch : ascii) (s : string) : string :=
  match s with
  | EmptyString => EmptyString
  | String c r =>
      match rstrip ch r with
      | EmptyString =>
          if Ascii.eqb c ch then EmptyString else String c EmptyString
      | r' => String c r'
      end
  end.

(** [ch in s]. *)
Fixpoint contains (ch : ascii) (s : string) : bool :=
  match s with
  | EmptyString => false
  | String c r => Ascii.eqb c ch || contains ch r
  end.

(** [b.startswith('/')] and [path.endswith('/')]. *)
Definition starts_with_sep (b : string) : bool :=
  match b with
  | String c _ => Ascii.eqb c "/"
  | EmptyString => false
  end.

Fixpoint ends_with_sep (path : string) : bool :=
  match path with
  | EmptyString => false
  | String c EmptyString => Ascii.eqb c "/"
  | String _ r => ends_with_sep r
  end.

(** One step of [posixpath.join]: an absolute component replaces what
    came before, another one is appended after a separator unless the
    path is empty or ends with one. *)
Definition join2 (path b : string) : string :=
  if starts_with_sep b then b
  else if String.eqb path "" || ends_with_sep path then path ++ b
  else path ++ "/" ++ b.

(** [os.path.join(a, *p)]. *)
Definition join (a : string) (p : list string) : string :=
  fold_left join2 p a.

(** ** afu_platform_config.py: getSearchPath and getOfsPlatIfPath *)

(** [plat_db_root] is imported from [platmgr.db.info], which is not part
    of the sources at hand; it is an argument here. *)
Definition getSearchPath (isdir : string -> bool) (plat_db_root : string)
    (env : environ) (env_name default_dir : string) : list string :=
  let path :=
    match env_get env_name env with
    | Some s => filter (fun p => negb (String.eqb p "")) (split_on ":" s)
    | None => []
    end in
  let path :=
    match env_get "OPAE_PLATFORM_ROOT" env with
    | Some root =>
        let release_db_dir :=
          join root ["hw"; "lib"; "platform"; default_dir] in
        if isdir release_db_dir then (path ++ [release_db_dir])%list
        else path
    | None => path
    end in
  (path ++ [join plat_db_root [default_dir]])%list.

Definition getOfsPlatIfPath (isdir : string -> bool) (env : environ)
    : option string :=
  let first :=
    match env_get "OPAE_PLATFORM_ROOT" env with
    | Some root =>
        let plat_dir :=
          join (rstrip "/" root) ["hw/lib/build/platform/ofs_plat_if"] in
        if isdir plat_dir then Some plat_dir else None
    | None => None
    end in
  match first with
  | Some plat_dir => Some plat_dir
  | None =>
      match env_get "BBS_LIB_PATH" env with
      | Some lib =>
          let plat_dir :=
            join (rstrip "/" lib) ["build/platform/ofs_plat_if"] in
          if isdir plat_dir then Some plat_dir else None
      | None => None
      end
  end.

(** ** afu_synth_setup.py: getHWLibPath, updCmdEnv and getCmdEnv *)

(** The two [errorExit] calls of [getHWLibPath]. *)
Inductive synth_exit : Type :=
| HwLibNotSpecified
    (* "Release hw/lib directory must be specified with
       OPAE_PLATFORM_ROOT, BBS_LIB_PATH or --lib" *)
| NotAHwLibDir (hw_lib_dir : string)
    (* "{0} is not a release hw/lib directory" *).

(** [getHWLibPath], with [args.lib] as [lib].  The environment is
    returned too: the function stores [--lib] in [BBS_LIB_PATH] before
    it checks the directory. *)
Definition getHWLibPath (path_exists : string -> bool)
    (lib : option string) (env : environ)
    : environ * (string + synth_exit) :=
  let '(env, found) :=
    match lib with
    | Some hw_lib_dir => (env_set "BBS_LIB_PATH" hw_lib_dir env,
                          Some hw_lib_dir)
    | None =>
        match env_get "BBS_LIB_PATH" env with
        | Some v => (env, Some (rstrip "/" v))
        | None =>
            match env_get "OPAE_PLATFORM_ROOT" env with
            | Some root => (env, Some (join (rstrip "/" root) ["hw/lib"]))
            | None => (env, None)
            end
        end
    end in
  match found with
  | None => (env, inr HwLibNotSpecified)
  | Some hw_lib_dir =>
      if negb (path_exists (join hw_lib_dir ["fme-platform-class.txt"]))
      then (env, inr (NotAHwLibDir hw_lib_dir))
      else (env, inl hw_lib_dir)
  end.

(** [updCmdEnv].  [env] is [os.environ] itself, so the store is a change
    of the process environment. *)
Definition updCmdEnv (env : environ) (key value : string) : environ :=
  match env_get key env with
  | None => env_set key value env
  | Some cur =>
      if negb (String.eqb (last (split_on ":" cur) "") value)
      then env_set key (cur ++ ":" ++ value) env
      else env
  end.

(** [getCmdEnv]: the environment handed to a subprocess, which is the
    process environment after the updates, or the exit of
    [getHWLibPath]. *)
Definition getCmdEnv (path_exists : string -> bool) (lib : option string)
    (env : environ) : environ * option synth_exit :=
  match lib, env_get "BBS_LIB_PATH" env with
  | None, None => (env, None)
  | _, _ =>
      match getHWLibPath path_exists lib env with
      | (env, inr e) => (env, Some e)
      | (env, inl hw_lib_dir) =>
          let plat_db := join hw_lib_dir ["platform"; "platform_db"] in
          let env :=
            if path_exists plat_db
            then updCmdEnv env "OPAE_PLATFORM_DB_PATH" plat_db else env in
          let ifc_db := join hw_lib_dir ["platform"; "afu_top_ifc_db"] in
          let env :=
            if path_exists ifc_db
            then updCmdEnv env "OPAE_AFU_TOP_IFC_DB_PATH" ifc_db else env in
          (env, None)
      end
  end.

(** The directory [getHWLibPath] settles on before it checks it. *)
Definition hw_lib_candidate (lib : option string) (env : environ)
    : option string :=
  match lib with
  | Some hw_lib_dir => Some hw_lib_dir
  | None =>
      match env_get "BBS_LIB_PATH" env with
      | Some v => Some (rstrip "/" v)
      | None =>
          match env_get "OPAE_PLATFORM_ROOT" env with
          | Some root => Some (join (rstrip "/" root) ["hw/lib"])
          | None => None
          end
      end
  end.

(** The environment after [getHWLibPath]. *)
Definition env_with_lib (lib : option string) (env : environ) : environ :=
  match lib with
  | Some hw_lib_dir => env_set "BBS_LIB_PATH" hw_lib_dir env
  | None => env
  end.

(** The two search lists updated for the release directory [d], the
    second half of [getCmdEnv]. *)
Definition with_search_paths (path_exists : string -> bool) (d : string)
    (env : environ) : environ :=
  let plat_db := join d ["platform"; "platform_db"] in
  let env :=
    if path_exists plat_db
    then updCmdEnv env "OPAE_PLATFORM_DB_PATH" plat_db else env in
  let ifc_db := join d ["platform"; "afu_top_ifc_db"] in
  if path_exists ifc_db
  then updCmdEnv env "OPAE_AFU_TOP_IFC_DB_PATH" ifc_db else env.

(** The sub-directory [sub] of [root] once the trailing slashes of
    [root] are dropped; it is [sub] itself, a relative path, when nothing
    of [root] is left. *)
Definition subdir_of (root sub : string) : string :=
  if String.eqb (rstrip "/" root) "" then sub
  else rstrip "/" root ++ "/" ++ sub.

(** * Properties *)

(** ** Facts about dictionaries *)

Lemma get_set_same (k : string) (v : value) (d : dict) :
  get k (set k v d) = Some v.
Proof.
  induction d as [|[k' v'] r IH]; simpl.
  - now rewrite String.eqb_refl.
  - destruct (String.eqb k k') eqn:E; simpl; rewrite ?String.eqb_refl, ?E;
      auto.
Qed.

Lemma get_set_other (k k' : string) (v : value) (d : dict) :
  k <> k' -> get k' (set k v d) = get k' d.
Proof.
  intros Hne. induction d as [|[k0 v0] r IH]; simpl.
  - destruct (String.eqb_spec k' k); congruence.
  - destruct (String.eqb_spec k k0); simpl.
    + subst k0. destruct (String.eqb_spec k' k); congruence.
    + now rewrite IH.
Qed.

Lemma get_del_same (k : string) (d : dict) : get k (del k d) = None.
Proof.
  induction d as [|[k' v'] r IH]; simpl; auto.
  destruct (String.eqb k k') eqn:E; simpl; rewrite ?E; auto.
Qed.

Lemma get_del_other (k k' : string) (d : dict) :
  k <> k' -> get k' (del k d) = get k' d.
Proof.
  intros Hne. induction d as [|[k0 v0] r IH]; simpl; auto.
  destruct (String.eqb_spec k k0); simpl.
  - subst k0. destruct (String.eqb_spec k' k); congruence.
  - now rewrite IH.
Qed.

Lemma del_absent (k : string) (d : dict) : get k d = None -> del k d = d.
Proof.
  induction d as [|[k' v'] r IH]; simpl; auto.
  destruct (String.eqb k k'); [discriminate|]. intros H. now rewrite IH.
Qed.

Lemma set_same_id (k : string) (v : value) (d : dict) :
  get k d = Some v -> set k v d = d.
Proof.
  induction d as [|[k' v'] r IH]; simpl; [discriminate|].
  destruct (String.eqb_spec k k').
  - intros [= ->]. now subst.
  - intros H. now rewrite IH.
Qed.

Lemma set_absent (k : string) (v : value) (d : dict) :
  get k d = None -> set k v d = (d ++ [(k, v)])%list.
Proof.
  induction d as [|[k' v'] r IH]; simpl; auto.
  destruct (String.eqb k k'); [discriminate|]. intros H. now rewrite IH.
Qed.

Lemma set_set_same (k : string) (v w : value) (d : dict) :
  set k w (set k v d) = set k w d.
Proof.
  induction d as [|[k' v'] r IH]; simpl.
  - now rewrite String.eqb_refl.
  - destruct (String.eqb k k') eqn:E; simpl; rewrite ?String.eqb_refl, ?E;
      auto. now rewrite IH.
Qed.

Lemma get_app (k : string) (d e : dict) :
  get k (d ++ e)%list = match get k d with Some v => Some v | None => get k e end.
Proof.
  induction d as [|[k' v'] r IH]; simpl; auto.
  destruct (String.eqb k k'); auto.
Qed.

Lemma get_in_keys (k : string) (d : dict) :
  In k (keys d) -> exists v, get k d = Some v.
Proof.
  induction d as [|[k' v'] r IH]; simpl; [tauto|].
  intros [->|H].
  - rewrite String.eqb_refl. eauto.
  - destruct (String.eqb k k'); eauto.
Qed.

Lemma get_some_in_keys (k : string) (v : value) (d : dict) :
  get k d = Some v -> In k (keys d).
Proof.
  induction d as [|[k' v'] r IH]; simpl; [discriminate|].
  destruct (String.eqb_spec k k'); auto.
Qed.

Lemma mem_true_iff (k : string) (d : dict) :
  mem k d = true <-> exists v, get k d = Some v.
Proof.
  unfold mem. destruct (get k d); split; eauto; try discriminate.
  intros [v [=]].
Qed.

Lemma mem_false_iff (k : string) (d : dict) :
  mem k d = false <-> get k d = None.
Proof.
  unfold mem. destruct (get k d); split; auto; discriminate.
Qed.

(** Two dictionaries with the same entries in another order agree on
    every lookup, as long as no key is repeated. *)
Lemma get_permutation (k : string) (d e : dict) :
  NoDup (keys d) -> Permutation d e -> get k d = get k e.
Proof.
  intros Hnd Hp. induction Hp as [|[k0 v0] d e Hp IH|[k0 v0] [k1 v1] d|d e f Hp1 IH1 Hp2 IH2].
  - reflexivity.
  - simpl. inversion Hnd; subst. now rewrite IH.
  - simpl. inversion Hnd as [|? ? Hn _]; subst. simpl in Hn.
    destruct (String.eqb_spec k k0), (String.eqb_spec k k1); auto.
    subst. tauto.
  - rewrite IH1 by assumption. apply IH2.
    unfold keys. eapply Permutation_NoDup; [|exact Hnd].
    now apply Permutation_map.
Qed.

(** ** The matching engine *)

Ltac vector_port_by_eval :=
  repeat split; try reflexivity; eexists; split; reflexivity.


(** What [pick_entries] returns on two vector ports with integer
    bounds. *)
Lemma pick_entries_vector (port plat_match : dict) (rq off : bounds) :
  vector_port port rq -> vector_port plat_match off ->
  pick_entries (VDict port) (VDict plat_match) = Ok (VInt (chosen rq off)).
Proof.
  intros (_ & Hmin & Hmax & Hdef) (_ & Hmin' & Hmax' & Hdef').
  unfold pick_entries, chosen, rule_a, rule_b, getitem, mem.
  rewrite Hmin, Hmax, Hdef, Hmin', Hmax', Hdef'.
  unfold eq_int, py_ge, py_le, py_cmp; simpl.
  destruct (max_entries rq =? maxsize); simpl.
  - destruct (default_entries rq) as [d|]; simpl.
    + rewrite Z.geb_leb.
      destruct (min_entries off <=? d); simpl.
      * destruct (d <=? max_entries off); simpl; auto.
        destruct (default_entries off) as [d'|]; simpl; auto.
        rewrite Z.geb_leb. now destruct (min_entries rq <=? d').
      * destruct (default_entries off) as [d'|]; simpl; auto.
        rewrite Z.geb_leb. now destruct (min_entries rq <=? d').
    + destruct (default_entries off) as [d'|]; simpl; auto.
      rewrite Z.geb_leb. now destruct (min_entries rq <=? d').
  - destruct (default_entries rq) as [d|]; simpl;
      destruct (default_entries off) as [d'|]; simpl; auto.
Qed.

(** What [constrain_entries] does to an integer on two vector ports with
    integer bounds. *)
Lemma constrain_entries_vector (afu_name plat_name cls ifc : value)
    (port plat_match : dict) (rq off : bounds) (n : Z) :
  vector_port port rq -> vector_port plat_match off ->
  constrain_entries afu_name plat_name cls ifc
    (VDict port) (VDict plat_match) (VInt n) =
  let n' := if max_entries rq <? n then max_entries rq else n in
  if n' <? min_entries rq then
    Exit (RequiresMoreEntries afu_name cls ifc plat_name)
  else if n' <? min_entries off then
    Exit (RequiresMoreFewerEntries afu_name cls ifc plat_name)
  else Ok (VInt n').
Proof.
  intros (_ & Hmin & Hmax & _) (_ & Hmin' & _ & _).
  unfold constrain_entries, getitem. rewrite Hmin, Hmax, Hmin'.
  unfold py_gt, py_lt, py_cmp; simpl. rewrite Z.gtb_ltb.
  destruct (max_entries rq <? n); simpl;
    match goal with |- context [?a <? min_entries rq] =>
      destruct (a <? min_entries rq); simpl; auto end;
    match goal with |- context [?a <? min_entries off] =>
      destruct (a <? min_entries off); simpl; auto end.
Qed.

(** The iteration for a vector requirement matched by a vector offering. *)
Lemma match_port_vector (afu_name plat_name : value) (offered : dict)
    (port plat_match : dict) (c i : string) (rq off : bounds) :
  keyed port c i ->
  get ((c ++ "/") ++ i) offered = Some (VDict plat_match) ->
  vector_port port rq -> vector_port plat_match off ->
  match_port afu_name plat_name offered (VDict port) =
  if clamped rq off <? min_entries rq then
    Exit (RequiresMoreEntries afu_name (VStr c) (VStr i) plat_name)
  else if clamped rq off <? min_entries off then
    Exit (RequiresMoreFewerEntries afu_name (VStr c) (VStr i) plat_name)
  else
    Ok (Some (mkMatch (VDict port) (VDict plat_match)
                (Some (VInt (clamped rq off))))).
Proof.
  intros Hk Hoff Hp Hq.
  pose proof (pick_entries_vector _ _ _ _ Hp Hq) as Hpick.
  pose proof (constrain_entries_vector afu_name plat_name (VStr c) (VStr i)
                _ _ _ _ (chosen rq off) Hp Hq) as Hcon.
  destruct Hk as [Hc Hi].
  destruct Hp as ((pv & Hpv & Tpv) & _). destruct Hq as ((ov & Hov & Tov) & _).
  unfold match_port. simpl getitem at 1. rewrite Hc. simpl.
  rewrite Hi. simpl. unfold mem. rewrite Hoff. simpl.
  unfold not_, is_. simpl. rewrite Hpv, Hov. simpl. rewrite Tpv, Tov. simpl.
  rewrite Hpick. simpl. rewrite Hcon. unfold clamped. simpl.
  destruct (max_entries rq <? chosen rq off);
    match goal with |- context [?a <? min_entries rq] =>
      destruct (a <? min_entries rq); simpl; auto end;
    match goal with |- context [?a <? min_entries off] =>
      destruct (a <? min_entries off); simpl; auto end.
Qed.

Lemma match_ports_cons_exit (afu_name plat_name : value) (offered : dict)
    (port : value) (rest : list value) (acc : list port_match)
    (e : exit_msg) :
  match_port afu_name plat_name offered port = Exit e ->
  match_ports afu_name plat_name offered (port :: rest) acc = Exit e.
Proof. intros H. simpl. now rewrite H. Qed.

Lemma chosen_le_offered_max (rq off : bounds) :
  (forall d, default_entries off = Some d -> d <= max_entries off) ->
  chosen rq off <= max_entries off.
Proof.
  intros Hdef. unfold chosen, rule_a, rule_b.
  destruct (default_entries rq) as [d|].
  - destruct ((max_entries rq =? maxsize) && (min_entries off <=? d)
              && (d <=? max_entries off)) eqn:E.
    + apply andb_prop in E as [_ E]. lia.
    + destruct (default_entries off) as [d'|]; [|lia].
      destruct ((max_entries rq =? maxsize) && (min_entries rq <=? d'));
        [apply Hdef; reflexivity | lia].
  - destruct (default_entries off) as [d'|]; [|lia].
    destruct ((max_entries rq =? maxsize) && (min_entries rq <=? d'));
      [apply Hdef; reflexivity | lia].
Qed.

Lemma clamped_le (rq off : bounds) :
  clamped rq off <= max_entries rq /\ clamped rq off <= chosen rq off.
Proof.
  unfold clamped. destruct (Z.ltb_spec (max_entries rq) (chosen rq off)); lia.
Qed.

(** C1. On a vector requirement matched by a vector offering, the size
    picked before the clamp is the first applicable of: the requirement's
    default (requirement maximum unbounded, default inside the offering's
    window), the offering's default (requirement maximum unbounded,
    default at least the requirement's minimum), the offering's maximum;
    the size tested against the minima and recorded as [num-entries] is
    that value reduced to the requirement's maximum when it exceeds it. *)
Theorem C1_num_entries_decision_chain (afu_name plat_name : value)
    (offered port plat_match : dict) (c i : string) (rq off : bounds) :
  keyed port c i ->
  get ((c ++ "/") ++ i) offered = Some (VDict plat_match) ->
  vector_port port rq -> vector_port plat_match off ->
  pick_entries (VDict port) (VDict plat_match) = Ok (VInt (chosen rq off)) /\
  match_port afu_name plat_name offered (VDict port) =
  if clamped rq off <? min_entries rq then
    Exit (RequiresMoreEntries afu_name (VStr c) (VStr i) plat_name)
  else if clamped rq off <? min_entries off then
    Exit (RequiresMoreFewerEntries afu_name (VStr c) (VStr i) plat_name)
  else
    Ok (Some (mkMatch (VDict port) (VDict plat_match)
                (Some (VInt (clamped rq off))))).
Proof.
  intros Hk Hoff Hp Hq. split.
  - now apply pick_entries_vector.
  - now apply match_port_vector.
Qed.

(** The first scenario of section 8: rule a picks the requirement's
    default, 4. *)
Lemma C1_witness_rule_a :
  match_port (VStr "afu") (VStr "plat") [("clk/std", VDict off_clk)]
    (VDict req_clk) =
  Ok (Some (mkMatch (VDict req_clk) (VDict off_clk) (Some (VInt 4)))).
Proof.
  refine (proj2 (C1_num_entries_decision_chain (VStr "afu") (VStr "plat")
            [("clk/std", VDict off_clk)] req_clk off_clk "clk" "std"
            (mkBounds 1 maxsize (Some 4)) (mkBounds 2 8 None) _ _ _ _)).
  - split; reflexivity.
  - reflexivity.
  - vector_port_by_eval.
  - vector_port_by_eval.
Defined.

(** C2, as the code has it.  When the offering's own default, if it has
    one, does not exceed the offering's maximum: a successful vector to
    vector match records a size inside both windows, and when the two
    windows have no integer in common the iteration, and with it the run,
    stops with an InsufficientEntries exit. *)
Theorem C2_resolved_size_within_bounds (afu_name plat_name : value)
    (offered port plat_match : dict) (c i : string) (rq off : bounds) :
  keyed port c i ->
  get ((c ++ "/") ++ i) offered = Some (VDict plat_match) ->
  vector_port port rq -> vector_port plat_match off ->
  (forall d, default_entries off = Some d -> d <= max_entries off) ->
  (forall m, match_port afu_name plat_name offered (VDict port) = Ok m ->
     exists N,
       m = Some (mkMatch (VDict port) (VDict plat_match) (Some (VInt N))) /\
       min_entries rq <= N <= max_entries rq /\
       min_entries off <= N <= max_entries off) /\
  ((forall N, ~ (min_entries rq <= N <= max_entries rq /\
                 min_entries off <= N <= max_entries off)) ->
   exists e,
     match_port afu_name plat_name offered (VDict port) = Exit e /\
     kind_of e = InsufficientEntries /\
     forall rest acc,
       match_ports afu_name plat_name offered (VDict port :: rest) acc =
       Exit e).
Proof.
  intros Hk Hoff Hp Hq Hdef.
  pose proof (match_port_vector afu_name plat_name _ _ _ _ _ _ _
                Hk Hoff Hp Hq) as E.
  pose proof (chosen_le_offered_max rq off Hdef) as Hc.
  destruct (clamped_le rq off) as [Hc1 Hc2].
  destruct (Z.ltb_spec (clamped rq off) (min_entries rq)) as [L1|L1];
    [|destruct (Z.ltb_spec (clamped rq off) (min_entries off)) as [L2|L2]].
  - split.
    + intros m Hm. congruence.
    + intros _. eexists. split; [exact E|]. split; [reflexivity|].
      intros rest acc. now apply match_ports_cons_exit.
  - split.
    + intros m Hm. congruence.
    + intros _. eexists. split; [exact E|]. split; [reflexivity|].
      intros rest acc. now apply match_ports_cons_exit.
  - split.
    + intros m Hm. rewrite E in Hm. injection Hm as <-.
      exists (clamped rq off). split; [reflexivity|]. lia.
    + intros Hnone. exfalso. apply (Hnone (clamped rq off)). lia.
Qed.

(** The windows [1, maxsize] and [9, 8] have nothing in common: the run
    stops on the offering's floor. *)
Lemma C2_witness_empty_intersection :
  exists e,
    match_port (VStr "afu") (VStr "plat")
      [("clk/std", VDict (set "min-entries" (VInt 9) off_clk))]
      (VDict req_clk) = Exit e /\
    kind_of e = InsufficientEntries.
Proof.
  destruct (C2_resolved_size_within_bounds (VStr "afu") (VStr "plat")
              [("clk/std", VDict (set "min-entries" (VInt 9) off_clk))]
              req_clk (set "min-entries" (VInt 9) off_clk) "clk" "std"
              (mkBounds 1 maxsize (Some 4)) (mkBounds 9 8 None))
    as [_ H].
  - split; reflexivity.
  - reflexivity.
  - vector_port_by_eval.
  - vector_port_by_eval.
  - simpl. intros d Hd. discriminate Hd.
  - destruct H as (e & He & Hk & _).
    + simpl. intros N. lia.
    + exists e. split; assumption.
Defined.

(** C2 as stated fails on an offering whose default lies above its own
    maximum: rule b takes the default 10 although the offering's maximum
    is 8, and takes the default 6 of an offering whose window [5, 3] is
    empty. *)
Lemma C2_counterexample_offering_default_unchecked :
  (match_port (VStr "afu") (VStr "plat")
     [("clk/std", VDict off_default_above_max)] (VDict req_clk_nodef) =
   Ok (Some (mkMatch (VDict req_clk_nodef) (VDict off_default_above_max)
               (Some (VInt 10)))) /\
   ~ 10 <= 8) /\
  (match_port (VStr "afu") (VStr "plat")
     [("clk/std", VDict off_empty_window)] (VDict req_clk_nodef) =
   Ok (Some (mkMatch (VDict req_clk_nodef) (VDict off_empty_window)
               (Some (VInt 6)))) /\
   forall N, ~ (1 <= N <= maxsize /\ 5 <= N <= 3)).
Proof.
  split; split; try reflexivity; lia.
Qed.

(** C4. A requirement port whose key [class/interface] the offering set
    lacks: when the port is optional the iteration appends nothing and the
    loop goes on with the ports that remain; otherwise the run stops with
    the UnsatisfiedRequirement exit that carries the AFU's name, the class,
    the interface and the platform's name. *)
Theorem C4_unmatched_port (afu_name plat_name : value)
    (offered port : dict) (c i : string) (opt : value) :
  keyed port c i ->
  get ((c ++ "/") ++ i) offered = None ->
  get "optional" port = Some opt ->
  (truthy opt = true ->
   match_port afu_name plat_name offered (VDict port) = Ok None /\
   forall rest acc,
     match_ports afu_name plat_name offered (VDict port :: rest) acc =
     match_ports afu_name plat_name offered rest acc) /\
  (truthy opt = false ->
   match_port afu_name plat_name offered (VDict port) =
     Exit (NeedsPort afu_name (VStr c) (VStr i) plat_name) /\
   kind_of (NeedsPort afu_name (VStr c) (VStr i) plat_name) =
     UnsatisfiedRequirement /\
   forall rest acc,
     match_ports afu_name plat_name offered (VDict port :: rest) acc =
     Exit (NeedsPort afu_name (VStr c) (VStr i) plat_name)).
Proof.
  intros [Hc Hi] Hoff Hopt.
  assert (E : match_port afu_name plat_name offered (VDict port) =
              if truthy opt then Ok None
              else Exit (NeedsPort afu_name (VStr c) (VStr i) plat_name)).
  { unfold match_port. simpl getitem at 1. rewrite Hc. simpl.
    rewrite Hi. simpl. unfold mem. rewrite Hoff. simpl.
    unfold not_. simpl. rewrite Hopt. simpl. now destruct (truthy opt). }
  split; intros T; rewrite T in E.
  - split; [exact E|]. intros rest acc. simpl. now rewrite E.
  - split; [exact E|]. split; [reflexivity|].
    intros rest acc. now apply match_ports_cons_exit.
Qed.

(** The last scenario of section 8: an optional port nobody offers. *)
Lemma C4_witness_optional_skipped :
  match_port (VStr "afu") (VStr "plat") []
    (VDict (set "optional" (VBool true) req_clk)) = Ok None /\
  match_port (VStr "afu") (VStr "plat") [] (VDict req_clk) =
    Exit (NeedsPort (VStr "afu") (VStr "clk") (VStr "std") (VStr "plat")).
Proof.
  split.
  - refine (proj1 (proj1 (C4_unmatched_port (VStr "afu") (VStr "plat") []
              (set "optional" (VBool true) req_clk) "clk" "std" (VBool true)
              _ _ _) _)); try reflexivity.
    split; reflexivity.
  - refine (proj1 (proj2 (C4_unmatched_port (VStr "afu") (VStr "plat") []
              req_clk "clk" "std" (VBool false) _ _ _) _)); try reflexivity.
    split; reflexivity.
Defined.

(** C6. A requirement port matched by key whose [vector] flag differs from
    the offering's: the run stops with a VectorMismatch exit, "expects a
    vector" when the requirement is the vector and "expects a non-vector"
    when the offering is, and nothing is appended for the port. *)
Theorem C6_vector_mismatch (afu_name plat_name : value)
    (offered port plat_match : dict) (c i : string) (pv ov : value) :
  keyed port c i ->
  get ((c ++ "/") ++ i) offered = Some (VDict plat_match) ->
  get "vector" port = Some pv ->
  get "vector" plat_match = Some ov ->
  truthy pv <> truthy ov ->
  let e := if truthy pv
           then ExpectsVector afu_name (VStr c) (VStr i) plat_name
           else ExpectsNonVector afu_name (VStr c) (VStr i) plat_name in
  match_port afu_name plat_name offered (VDict port) = Exit e /\
  kind_of e = VectorMismatch /\
  forall rest acc,
    match_ports afu_name plat_name offered (VDict port :: rest) acc = Exit e.
Proof.
  intros [Hc Hi] Hoff Hpv Hov Hne e.
  assert (E : match_port afu_name plat_name offered (VDict port) = Exit e).
  { unfold match_port. simpl getitem at 1. rewrite Hc. simpl.
    rewrite Hi. simpl. unfold mem. rewrite Hoff. simpl.
    unfold not_, is_. simpl. rewrite Hpv, Hov. simpl. subst e.
    destruct (truthy pv), (truthy ov); simpl; congruence. }
  split; [exact E|]. split.
  - subst e. now destruct (truthy pv).
  - intros rest acc. now apply match_ports_cons_exit.
Qed.

(** A scalar requirement against the vector offering of section 8, and
    the vector requirement against a scalar offering. *)
Lemma C6_witness_both_directions :
  match_port (VStr "afu") (VStr "plat") [("clk/std", VDict off_clk)]
    (VDict (set "vector" (VBool false) req_clk)) =
    Exit (ExpectsNonVector (VStr "afu") (VStr "clk") (VStr "std")
            (VStr "plat")) /\
  match_port (VStr "afu") (VStr "plat")
    [("clk/std", VDict (set "vector" (VBool false) off_clk))]
    (VDict req_clk) =
    Exit (ExpectsVector (VStr "afu") (VStr "clk") (VStr "std")
            (VStr "plat")).
Proof.
  split.
  - refine (proj1 (C6_vector_mismatch (VStr "afu") (VStr "plat")
              [("clk/std", VDict off_clk)]
              (set "vector" (VBool false) req_clk) off_clk "clk" "std"
              (VBool false) (VBool true) _ _ _ _ _)); try reflexivity.
    + split; reflexivity.
    + simpl. discriminate.
  - refine (proj1 (C6_vector_mismatch (VStr "afu") (VStr "plat")
              [("clk/std", VDict (set "vector" (VBool false) off_clk))]
              req_clk (set "vector" (VBool false) off_clk) "clk" "std"
              (VBool true) (VBool false) _ _ _ _ _)); try reflexivity.
    + split; reflexivity.
    + simpl. discriminate.
Defined.

(** [matchAfuPorts] on two databases of the expected shape is the loop
    over the requested ports in the order of the mapping. *)
Lemma matchAfuPorts_loop (verbose : bool) (afu_ifc_db platform_db : dict)
    (afu_name plat_name : value) (ports offered : dict) :
  get "file_name" afu_ifc_db = Some afu_name ->
  get "file_name" platform_db = Some plat_name ->
  get "module-ports" afu_ifc_db = Some (VDict ports) ->
  get "module-ports-offered" platform_db = Some (VDict offered) ->
  (verbose = true -> listing_ok ports && listing_ok offered = true) ->
  matchAfuPorts verbose afu_ifc_db platform_db =
  match_ports afu_name plat_name offered (values ports) [].
Proof.
  intros Ha Hp Hm Ho Hv. unfold matchAfuPorts, getitem.
  rewrite Ha, Hp, Hm. simpl. rewrite Ho. simpl.
  destruct verbose; simpl; auto. now rewrite Hv.
Qed.

Lemma match_ports_first_exit (afu_name plat_name : value) (offered : dict)
    (pre post : list value) (port : value) (e : exit_msg) :
  Forall (fun p => exists m, match_port afu_name plat_name offered p = Ok m)
    pre ->
  match_port afu_name plat_name offered port = Exit e ->
  forall acc,
    match_ports afu_name plat_name offered (pre ++ port :: post)%list acc =
    Exit e.
Proof.
  intros Hpre He. induction Hpre as [|p pre [m Hm] _ IH]; intros acc.
  - now apply match_ports_cons_exit.
  - simpl. rewrite Hm. simpl. apply IH.
Qed.

(** C5 as stated fails: with the same two failing ports, the diagnostic
    is the one of port [z] when [z] was entered first, although [a] sorts
    before [z]; entered the other way round, it is the one of [a]. *)
Lemma C5_counterexample_insertion_order :
  String.ltb "a" "z" = true /\
  matchAfuPorts false afu_db_z_then_a plat_db_empty =
    Exit (NeedsPort (VStr "afu") (VStr "z") (VStr "std") (VStr "plat")) /\
  matchAfuPorts false afu_db_a_then_z plat_db_empty =
    Exit (NeedsPort (VStr "afu") (VStr "a") (VStr "std") (VStr "plat")) /\
  (forall k,
     get k [("z", VDict (req_named "z")); ("a", VDict (req_named "a"))] =
     get k [("a", VDict (req_named "a")); ("z", VDict (req_named "z"))]).
Proof.
  repeat split; try reflexivity.
  intros k. simpl.
  destruct (String.eqb_spec k "z"), (String.eqb_spec k "a"); congruence.
Qed.

(** C5, as the code has it.  The requirement ports are processed in the
    iteration order of the [module-ports] mapping, which is the order in
    which its entries were inserted: the run reports the diagnostic of
    the first port, in that order, that fails. *)
Theorem C5_first_failure_in_mapping_order (verbose : bool)
    (afu_ifc_db platform_db : dict) (afu_name plat_name : value)
    (ports offered : dict) (pre post : list value) (port : value)
    (e : exit_msg) :
  get "file_name" afu_ifc_db = Some afu_name ->
  get "file_name" platform_db = Some plat_name ->
  get "module-ports" afu_ifc_db = Some (VDict ports) ->
  get "module-ports-offered" platform_db = Some (VDict offered) ->
  (verbose = true -> listing_ok ports && listing_ok offered = true) ->
  values ports = (pre ++ port :: post)%list ->
  Forall (fun p => exists m, match_port afu_name plat_name offered p = Ok m)
    pre ->
  match_port afu_name plat_name offered port = Exit e ->
  matchAfuPorts verbose afu_ifc_db platform_db = Exit e.
Proof.
  intros Ha Hp Hm Ho Hv Hsplit Hpre He.
  rewrite (matchAfuPorts_loop verbose _ _ _ _ _ _ Ha Hp Hm Ho Hv), Hsplit.
  now apply match_ports_first_exit.
Qed.

(** A mapping that holds the satisfied port [clk] before the two failing
    ones, [z] first: the diagnostic is the one of [z]. *)
Lemma C5_witness_reports_first_inserted :
  matchAfuPorts true
    [("file_name", VStr "afu");
     ("module-ports",
      VDict [("clk", VDict req_clk); ("z", VDict (req_named "z"));
             ("a", VDict (req_named "a"))])]
    [("file_name", VStr "plat");
     ("module-ports-offered", VDict [("clk/std", VDict off_clk)])] =
  Exit (NeedsPort (VStr "afu") (VStr "z") (VStr "std") (VStr "plat")).
Proof.
  refine (C5_first_failure_in_mapping_order true _ _ (VStr "afu")
            (VStr "plat")
            [("clk", VDict req_clk); ("z", VDict (req_named "z"));
             ("a", VDict (req_named "a"))]
            [("clk/std", VDict off_clk)]
            [VDict req_clk] [VDict (req_named "a")] (VDict (req_named "z"))
            _ _ _ _ _ _ _ _ _); try reflexivity.
  constructor; [|constructor]. eexists. reflexivity.
Defined.

(** ** The merge engine *)

Lemma with_ports_get (ports : dict) (db : dict) :
  get "module-ports" (with_ports ports db) = Some (VDict ports).
Proof. apply get_set_same. Qed.

Lemma with_ports_twice (p q : dict) (db : dict) :
  with_ports q (with_ports p db) = with_ports q db.
Proof. apply set_set_same. Qed.

Lemma with_ports_id (ports : dict) (db : dict) :
  get "module-ports" db = Some (VDict ports) -> with_ports ports db = db.
Proof. apply set_same_id. Qed.

Lemma update_field_ok (c k : string) (v : value) (db ports base : dict) :
  get "module-ports" db = Some (VDict ports) ->
  get c ports = Some (VDict base) ->
  update_field c k v db =
  (with_ports (set c (VDict (set k v base)) ports) db, Ok tt).
Proof. intros H1 H2. unfold update_field. now rewrite H1, H2. Qed.

Lemma update_field_ok_inv (c k : string) (v : value) (db db' ports : dict)
    (u : unit) :
  get "module-ports" db = Some (VDict ports) ->
  update_field c k v db = (db', Ok u) ->
  exists base, get c ports = Some (VDict base).
Proof.
  intros H1. unfold update_field. rewrite H1.
  destruct (get c ports) as [[| | | | |base]|]; try discriminate. eauto.
Qed.

(** The update loop over permitted fields runs to its end. *)
Lemma override_fields_legal (fname : value) (c : string) (r : dict)
    (ks : list string) :
  Forall (fun k => k = "class" \/ legal k = true) ks ->
  incl ks (keys r) ->
  forall db ports base,
    get "module-ports" db = Some (VDict ports) ->
    get c ports = Some (VDict base) ->
    override_fields fname c r ks db =
    (with_ports (set c (VDict (apply_fields r ks base)) ports) db, Ok tt).
Proof.
  induction 1 as [|k ks Hk _ IH]; intros Hin db ports base Hdb Hc; simpl.
  - rewrite (set_same_id _ _ _ Hc). now rewrite with_ports_id.
  - assert (Hin' : incl ks (keys r)) by (intros x Hx; apply Hin; now right).
    destruct (String.eqb_spec k "class") as [->|Hne]; [now apply IH|].
    destruct Hk as [Hk|Hk]; [contradiction|]. rewrite Hk. simpl.
    destruct (get_in_keys k r) as [v Hv]; [apply Hin; now left|].
    rewrite Hv, (update_field_ok _ _ _ _ _ _ Hdb Hc).
    rewrite (IH Hin' _ _ (set k v base) (with_ports_get _ _)
               (get_set_same _ _ _)).
    now rewrite with_ports_twice, set_set_same.
Qed.

(** The update loop splits at any point of the field list. *)
Lemma override_fields_app (fname : value) (c : string) (r : dict)
    (ks1 ks2 : list string) (db : dict) :
  override_fields fname c r (ks1 ++ ks2)%list db =
  match override_fields fname c r ks1 db with
  | (db', Ok _) => override_fields fname c r ks2 db'
  | other => other
  end.
Proof.
  revert db. induction ks1 as [|k ks1 IH]; intros db; simpl; auto.
  destruct (String.eqb k "class"); [apply IH|].
  destruct (negb (legal k)); auto.
  destruct (get k r) as [v|]; auto.
  destruct (update_field c k v db) as [db' [u| | |]]; auto.
Qed.

Lemma legal_prefix_legal (ks : list string) :
  Forall (fun k => k = "class" \/ legal k = true) (legal_prefix ks).
Proof.
  induction ks as [|k ks IH]; simpl; [constructor|].
  destruct (String.eqb_spec k "class") as [->|Hne]; simpl.
  - constructor; auto.
  - destruct (legal k) eqn:E; constructor; auto.
Qed.

(** A field list that holds a field outside the allow-list splits into
    its permitted prefix, the first such field, and the rest. *)
Lemma legal_prefix_split (ks : list string) :
  (exists k, In k ks /\ k <> "class" /\ legal k = false) ->
  exists k post,
    ks = (legal_prefix ks ++ k :: post)%list /\
    k <> "class" /\ legal k = false.
Proof.
  induction ks as [|k0 ks IH]; intros (k & Hin & Hne & Hl).
  - destruct Hin.
  - simpl. destruct (String.eqb_spec k0 "class") as [->|Hne0]; simpl.
    + destruct Hin as [<-|Hin]; [congruence|].
      destruct IH as (k' & post & E & H1 & H2); [eauto|].
      exists k', post. split; [now f_equal | auto].
    + destruct (legal k0) eqn:E0.
      * destruct Hin as [<-|Hin]; [congruence|].
        destruct IH as (k' & post & E & H1 & H2); [eauto|].
        exists k', post. split; [simpl; now f_equal | auto].
      * exists k0, ks. auto.
Qed.

Lemma legal_prefix_incl (ks : list string) : incl (legal_prefix ks) ks.
Proof.
  induction ks as [|k ks IH]; simpl; [apply incl_refl|].
  destruct (String.eqb k "class" || legal k).
  - intros x [<-|Hx]; [now left | right; now apply IH].
  - intros x [].
Qed.

(** An update record with a field outside the allow-list: the loop stops
    at the first such field, after writing the permitted ones before
    it. *)
Lemma override_fields_illegal (fname : value) (c : string) (r : dict)
    (db ports base : dict) (k : string) (post : list string) :
  get "module-ports" db = Some (VDict ports) ->
  get c ports = Some (VDict base) ->
  keys r = (legal_prefix (keys r) ++ k :: post)%list ->
  k <> "class" -> legal k = false ->
  override_fields fname c r (keys r) db =
  (with_ports
     (set c (VDict (apply_fields r (legal_prefix (keys r)) base)) ports) db,
   Exit (MayNotUpdate (VStr c) (VStr k) fname)).
Proof.
  intros Hdb Hc Hsplit Hne Hl.
  rewrite Hsplit at 1. rewrite override_fields_app.
  rewrite (override_fields_legal fname c r _ (legal_prefix_legal _)
             (legal_prefix_incl _) _ _ _ Hdb Hc).
  simpl. destruct (String.eqb_spec k "class"); [contradiction|].
  now rewrite Hl.
Qed.

Lemma inject_ports_cons_stop (fname port : value) (rest : list value)
    (db db' : dict) (e : exit_msg) :
  inject_port fname port db = (db', Exit e) ->
  inject_ports fname (port :: rest) db = (db', Exit e).
Proof. intros H. simpl. now rewrite H. Qed.

(** C3 as stated fails: the record is refused at its [interface] field,
    but by then its [min-entries] has been written into the base port,
    which held 1 and now holds 2. *)
Lemma C3_counterexample_partial_application :
  exists db',
    injectAfuIfcChanges afu_db_clk
      [("file_path", VStr "afu.json");
       ("module-ports", VList [VDict rec_min_then_interface])] =
    (db', Exit (MayNotUpdate (VStr "clk") (VStr "interface")
                  (VStr "afu.json"))) /\
    db' <> afu_db_clk /\
    (ports <- getitem (VDict afu_db_clk) "module-ports" ;;
     p <- getitem ports "clk" ;; getitem p "min-entries") = Ok (VInt 1) /\
    (ports <- getitem (VDict db') "module-ports" ;;
     p <- getitem ports "clk" ;; getitem p "min-entries") = Ok (VInt 2).
Proof.
  eexists. split; [reflexivity|]. split; [discriminate|].
  split; reflexivity.
Qed.

(** C3, as the code has it.  An update record (its class is in the base
    set, the base port being a dictionary) with a field other than
    [class] outside the allow-list stops the run with an
    UnauthorizedOverride exit naming the first such field in the order
    of the record.  The permitted fields that come before that field
    have been written to the base port by then; the fields after it are
    never looked at.  The base is untouched when no permitted field
    comes first. *)
Theorem C3_override_stops_at_first_forbidden_field (fname : value)
    (r db ports base : dict) (c : string) :
  get "module-ports" db = Some (VDict ports) ->
  get "class" r = Some (VStr c) ->
  get c ports = Some (VDict base) ->
  (exists k, In k (keys r) /\ k <> "class" /\ legal k = false) ->
  exists k post,
    keys r = (legal_prefix (keys r) ++ k :: post)%list /\
    k <> "class" /\ legal k = false /\
    let db' :=
      with_ports
        (set c (VDict (apply_fields r (legal_prefix (keys r)) base)) ports)
        db in
    let e := MayNotUpdate (VStr c) (VStr k) fname in
    inject_port fname (VDict r) db = (db', Exit e) /\
    kind_of e = UnauthorizedOverride /\
    (forall rest, inject_ports fname (VDict r :: rest) db = (db', Exit e)) /\
    (Forall (fun f => f = "class") (legal_prefix (keys r)) -> db' = db).
Proof.
  intros Hdb Hcls Hc Hbad.
  destruct (legal_prefix_split _ Hbad) as (k & post & Hsplit & Hne & Hl).
  exists k, post. repeat (split; [assumption|]).
  assert (E : inject_port fname (VDict r) db =
              (with_ports
                 (set c (VDict (apply_fields r (legal_prefix (keys r)) base))
                    ports) db,
               Exit (MayNotUpdate (VStr c) (VStr k) fname))).
  { unfold inject_port. rewrite Hcls, Hdb. unfold mem. rewrite Hc. simpl.
    now apply override_fields_illegal with (post := post). }
  cbv zeta. split; [exact E|]. split; [reflexivity|]. split.
  - intros rest. now apply inject_ports_cons_stop.
  - intros Hall.
    assert (Hid : forall ks b, Forall (fun f => f = "class") ks ->
                               apply_fields r ks b = b).
    { induction ks as [|k0 ks IH]; intros b Hf; simpl; auto.
      inversion Hf; subst. simpl. now apply IH. }
    rewrite (Hid _ _ Hall), (set_same_id _ _ _ Hc).
    now apply with_ports_id.
Qed.

(** The record of the counterexample: the exit names [interface], and
    the state at the exit carries the new [min-entries]. *)
Lemma C3_witness_min_then_interface :
  inject_port (VStr "afu.json") (VDict rec_min_then_interface) afu_db_clk =
  (with_ports [("clk", VDict (set "min-entries" (VInt 2) req_clk))]
     afu_db_clk,
   Exit (MayNotUpdate (VStr "clk") (VStr "interface") (VStr "afu.json"))).
Proof.
  assert (Hbad : exists k, In k (keys rec_min_then_interface) /\
                          k <> "class" /\ legal k = false).
  { exists "interface". split; [simpl; tauto|]. split; [discriminate|].
    reflexivity. }
  destruct (C3_override_stops_at_first_forbidden_field (VStr "afu.json")
              rec_min_then_interface afu_db_clk [("clk", VDict req_clk)]
              req_clk "clk" eq_refl eq_refl eq_refl Hbad)
    as (k & post & Hsplit & _ & _ & E & _).
  simpl in Hsplit. injection Hsplit as <- _. exact E.
Defined.

(** *** What a run that ends without error has done *)

Lemma apply_fields_keeps (r : dict) (k : string) (v : value)
    (ks : list string) :
  get k r = Some v ->
  forall base, get k base = Some v ->
               get k (apply_fields r ks base) = Some v.
Proof.
  intros Hr. induction ks as [|k0 ks IH]; intros base Hb; simpl; auto.
  destruct (String.eqb k0 "class"); auto.
  destruct (get k0 r) as [v0|] eqn:E0; auto.
  apply IH. destruct (String.eqb_spec k0 k) as [->|Hne].
  - rewrite get_set_same. congruence.
  - now rewrite get_set_other.
Qed.

Lemma apply_fields_sets (r : dict) (k : string) (v : value)
    (ks : list string) :
  get k r = Some v -> k <> "class" -> In k ks ->
  forall base, get k (apply_fields r ks base) = Some v.
Proof.
  intros Hr Hne. induction ks as [|k0 ks IH]; intros Hin base; simpl.
  - destruct Hin.
  - destruct (String.eqb_spec k0 k) as [->|Hne0].
    + destruct (String.eqb_spec k "class"); [contradiction|].
      rewrite Hr. apply apply_fields_keeps; auto. apply get_set_same.
    + destruct Hin as [?|Hin]; [contradiction|].
      destruct (String.eqb k0 "class"); auto.
      destruct (get k0 r); auto.
Qed.

Lemma apply_fields_other (r : dict) (k : string) (ks : list string) :
  ~ In k ks ->
  forall base, get k (apply_fields r ks base) = get k base.
Proof.
  induction ks as [|k0 ks IH]; intros Hin base; simpl; auto.
  assert (Hne : k0 <> k) by (intros ->; apply Hin; now left).
  assert (Hin' : ~ In k ks) by (intros H; apply Hin; now right).
  destruct (String.eqb k0 "class"); auto.
  destruct (get k0 r); auto.
  rewrite IH by assumption. now apply get_set_other.
Qed.

(** The update loop, when it ends without error, has written the listed
    fields onto the base port; it cannot end so on a base port that is
    not a dictionary unless it had nothing to write. *)
Lemma override_fields_ok_inv (fname : value) (c : string) (r : dict)
    (ks : list string) :
  forall db db' ports u,
    get "module-ports" db = Some (VDict ports) ->
    override_fields fname c r ks db = (db', Ok u) ->
    db' = with_ports
            (match get c ports with
             | Some (VDict base) =>
                 set c (VDict (apply_fields r ks base)) ports
             | _ => ports
             end) db /\
    (forall k, In k ks -> k <> "class" ->
               exists base, get c ports = Some (VDict base)).
Proof.
  induction ks as [|k ks IH]; intros db db' ports u Hdb H; simpl in H.
  - injection H as <- _. split; [|intros k []].
    destruct (get c ports) as [[| | | | |base]|] eqn:Hc;
      simpl; rewrite ?(set_same_id _ _ _ Hc); now rewrite with_ports_id.
  - destruct (String.eqb_spec k "class") as [->|Hne].
    + destruct (IH _ _ _ _ Hdb H) as [E Hall]. split; [exact E|].
      intros k [<-|Hin] Hk; [contradiction | eauto].
    + destruct (negb (legal k)); [discriminate|].
      destruct (get k r) as [v|] eqn:Hv; [|discriminate].
      destruct (update_field c k v db) as [db1 [u1| | |]] eqn:Hu;
        try discriminate.
      destruct (update_field_ok_inv _ _ _ _ _ _ _ Hdb Hu) as [base Hc].
      rewrite (update_field_ok _ _ _ _ _ _ Hdb Hc) in Hu.
      injection Hu as <- _.
      destruct (IH _ _ _ _ (with_ports_get _ _) H) as [E _].
      rewrite get_set_same, with_ports_twice, set_set_same in E.
      rewrite Hc. simpl. destruct (String.eqb_spec k "class");
        [contradiction|]. rewrite Hv. split; [exact E|]. eauto.
Qed.

(** An iteration that ends without error has merged a record that is a
    dictionary with a string for class. *)
Lemma inject_port_ok_inv (fname port : value) (db db' ports : dict)
    (u : unit) :
  get "module-ports" db = Some (VDict ports) ->
  inject_port fname port db = (db', Ok u) ->
  exists r c,
    port = VDict r /\ get "class" r = Some (VStr c) /\
    db' = with_ports (merge_record c r ports) db /\
    (get c ports <> None ->
     forall k, In k (keys r) -> k <> "class" ->
               exists base, get c ports = Some (VDict base)).
Proof.
  intros Hdb H. unfold inject_port in H.
  destruct port as [| | | | |r]; try discriminate.
  destruct (get "class" r) as [c|] eqn:Hcls; [|discriminate].
  rewrite Hdb in H.
  destruct c as [| | |c| |];
    try (destruct (negb (mem "interface" r)); discriminate);
    try discriminate.
  exists r, c. split; [reflexivity|]. split; [exact Hcls|].
  unfold merge_record, mem in *.
  destruct (get c ports) as [p|] eqn:Hc; simpl in H.
  - destruct (override_fields_ok_inv _ _ _ _ _ _ _ _ Hdb H) as [E Hall].
    rewrite Hc in E, Hall. split; [|intros _; exact Hall].
    destruct p; exact E.
  - destruct (negb (match get "interface" r with
                    | Some _ => true | None => false end));
      [discriminate|].
    injection H as <- _. split; [reflexivity|]. congruence.
Qed.

Lemma inject_ports_app (fname : value) (xs ys : list value) (db : dict) :
  inject_ports fname (xs ++ ys)%list db =
  match inject_ports fname xs db with
  | (db', Ok _) => inject_ports fname ys db'
  | other => other
  end.
Proof.
  revert db. induction xs as [|x xs IH]; intros db; simpl; auto.
  destruct (inject_port fname x db) as [db' [u| | |]]; auto.
Qed.

(** A property of the [module-ports] mapping that every merged record
    keeps is kept by a run that ends without error. *)
Lemma inject_ports_ok_invariant (fname : value) (P : dict -> Prop)
    (Q : value -> Prop) :
  (forall r c ports,
     Q (VDict r) -> get "class" r = Some (VStr c) -> P ports ->
     (get c ports <> None ->
      forall k, In k (keys r) -> k <> "class" ->
                exists base, get c ports = Some (VDict base)) ->
     P (merge_record c r ports)) ->
  forall records db db' ports u,
    Forall Q records ->
    get "module-ports" db = Some (VDict ports) ->
    P ports ->
    inject_ports fname records db = (db', Ok u) ->
    exists ports', get "module-ports" db' = Some (VDict ports') /\ P ports'.
Proof.
  intros Hstep. induction records as [|x xs IH];
    intros db db' ports u HQ Hdb HP H; simpl in H.
  - injection H as <- _. eauto.
  - inversion HQ as [|? ? Hx Hxs]; subst.
    destruct (inject_port fname x db) as [db1 [u1| | |]] eqn:E;
      try discriminate.
    destruct (inject_port_ok_inv _ _ _ _ _ _ Hdb E)
      as (r & c & -> & Hcls & -> & Hbase).
    eapply IH; [exact Hxs | apply with_ports_get | | exact H].
    now apply Hstep.
Qed.

Lemma merge_record_other (c c' : string) (r ports : dict) :
  c' <> c -> get c (merge_record c' r ports) = get c ports.
Proof.
  intros Hne. unfold merge_record.
  destruct (get c' ports) as [[| | | | |base]|]; auto;
    now apply get_set_other.
Qed.

Lemma get_none_not_in_keys (k : string) (d : dict) :
  get k d = None -> ~ In k (keys d).
Proof.
  intros Hn Hin. destruct (get_in_keys _ _ Hin) as [v Hv]. congruence.
Qed.

(** A record whose class is in the set and which holds a forbidden
    field stops the iteration at the first such field. *)
Lemma inject_port_forbidden (fname : value) (r db ports base : dict)
    (c k : string) (post : list string) :
  get "module-ports" db = Some (VDict ports) ->
  get "class" r = Some (VStr c) ->
  get c ports = Some (VDict base) ->
  keys r = (legal_prefix (keys r) ++ k :: post)%list ->
  k <> "class" -> legal k = false ->
  inject_port fname (VDict r) db =
  (with_ports
     (set c (VDict (apply_fields r (legal_prefix (keys r)) base)) ports) db,
   Exit (MayNotUpdate (VStr c) (VStr k) fname)).
Proof.
  intros Hdb Hcls Hc Hsplit Hne Hl.
  unfold inject_port. rewrite Hcls, Hdb. unfold mem. rewrite Hc. simpl.
  now apply override_fields_illegal with (post := post).
Qed.

(** A record of a class the set lacks, naming an interface, is added at
    the end of the mapping. *)
Lemma inject_port_extension (fname : value) (r db ports : dict)
    (c : string) :
  get "module-ports" db = Some (VDict ports) ->
  get "class" r = Some (VStr c) ->
  get c ports = None ->
  mem "interface" r = true ->
  inject_port fname (VDict r) db =
  (with_ports (ports ++ [(c, VDict r)])%list db, Ok tt).
Proof.
  intros Hdb Hcls Hc Hi.
  unfold inject_port. rewrite Hcls, Hdb, Hi. unfold mem. rewrite Hc. simpl.
  unfold with_ports. now rewrite (set_absent _ _ _ Hc).
Qed.

(** C10. Two records of one class [c] that the base set lacks, both
    naming an interface.  The first is added as a new port.  When the
    run reaches the second, it is handled as an update of that port and
    stops with an UnauthorizedOverride exit at the first forbidden field
    of the second record, which is [interface] when the record holds no
    other forbidden field. *)
Theorem C10_repeated_new_class_is_an_override (fname : value)
    (db ports r1 r2 : dict) (c : string) :
  get "module-ports" db = Some (VDict ports) ->
  get c ports = None ->
  get "class" r1 = Some (VStr c) -> mem "interface" r1 = true ->
  get "class" r2 = Some (VStr c) -> mem "interface" r2 = true ->
  inject_port fname (VDict r1) db =
    (with_ports (ports ++ [(c, VDict r1)])%list db, Ok tt) /\
  forall mid db1 u,
    inject_ports fname (VDict r1 :: mid) db = (db1, Ok u) ->
    exists k db',
      In k (keys r2) /\ k <> "class" /\ legal k = false /\
      ((forall f, In f (keys r2) ->
                  f = "class" \/ legal f = true \/ f = "interface") ->
       k = "interface") /\
      kind_of (MayNotUpdate (VStr c) (VStr k) fname) =
        UnauthorizedOverride /\
      forall rest,
        inject_ports fname (VDict r1 :: mid ++ VDict r2 :: rest)%list db =
        (db', Exit (MayNotUpdate (VStr c) (VStr k) fname)).
Proof.
  intros Hdb Hc Hc1 Hi1 Hc2 Hi2.
  pose proof (inject_port_extension fname _ _ _ _ Hdb Hc1 Hc Hi1) as E1.
  split; [exact E1|]. intros mid db1 u Hrun.
  cbn [inject_ports] in Hrun. rewrite E1 in Hrun.
  assert (Hstep : forall r c' m,
             True -> get "class" r = Some (VStr c') ->
             (exists p, get c m = Some (VDict p)) ->
             (get c' m <> None ->
              forall k, In k (keys r) -> k <> "class" ->
                        exists base, get c' m = Some (VDict base)) ->
             exists p, get c (merge_record c' r m) = Some (VDict p)).
  { intros r c' m _ Hcls [p Hp] _.
    destruct (String.eqb_spec c' c) as [->|Hne].
    - unfold merge_record. rewrite Hp. rewrite get_set_same. eauto.
    - rewrite merge_record_other by assumption. eauto. }
  assert (HP : exists p, get c (ports ++ [(c, VDict r1)])%list
                         = Some (VDict p)).
  { exists r1. rewrite get_app, Hc. simpl. now rewrite String.eqb_refl. }
  destruct (inject_ports_ok_invariant fname _ (fun _ => True) Hstep
              mid _ _ _ _ (proj2 (Forall_forall _ _) (fun _ _ => I))
              (with_ports_get _ _) HP Hrun)
    as (ports1 & Hdb1 & base & Hbase).
  destruct (legal_prefix_split (keys r2)) as (k & post & Hsplit & Hne & Hl).
  { exists "interface". apply mem_true_iff in Hi2 as [v Hv].
    split; [eapply get_some_in_keys; exact Hv|].
    split; [discriminate | reflexivity]. }
  assert (Hin : In k (keys r2)).
  { rewrite Hsplit. apply in_or_app. right. now left. }
  exists k,
    (with_ports
       (set c (VDict (apply_fields r2 (legal_prefix (keys r2)) base)) ports1)
       db1).
  repeat (split; [assumption|]).
  split; [|split; [reflexivity|]].
  - intros Honly. destruct (Honly k Hin) as [?|[?|?]]; congruence.
  - intros rest.
    change (VDict r1 :: mid ++ VDict r2 :: rest)%list
      with ((VDict r1 :: mid) ++ VDict r2 :: rest)%list.
    rewrite inject_ports_app. cbn [inject_ports]. rewrite E1, Hrun.
    apply inject_ports_cons_stop.
    now apply inject_port_forbidden with (post := post).
Qed.

Lemma C10_witness_same_new_class_twice :
  exists db',
    inject_ports (VStr "afu.json") [VDict rec_new_n; VDict rec_new_n]
      afu_db_clk =
    (db', Exit (MayNotUpdate (VStr "n") (VStr "interface")
                  (VStr "afu.json"))).
Proof.
  destruct (C10_repeated_new_class_is_an_override (VStr "afu.json")
              afu_db_clk [("clk", VDict req_clk)] rec_new_n rec_new_n "n"
              eq_refl eq_refl eq_refl eq_refl eq_refl eq_refl)
    as [_ H].
  destruct (H [] _ tt eq_refl) as (k & db' & _ & _ & _ & Hk & _ & Hrun).
  assert (E : k = "interface").
  { apply Hk. simpl. intros f [<-|[<-|[]]]; auto. }
  subst k. exists db'. exact (Hrun []).
Defined.

(** *** Order of the records *)

Lemma inject_ports_extensions (fname : value) (records : list value) :
  forall db ports,
    get "module-ports" db = Some (VDict ports) ->
    Forall (extends ports) records ->
    NoDup (map class_of records) ->
    inject_ports fname records db =
    (with_ports (ports ++ map entry records)%list db, Ok tt).
Proof.
  induction records as [|x xs IH]; intros db ports Hdb Hext Hnd;
    cbn [inject_ports map].
  - now rewrite app_nil_r, with_ports_id.
  - inversion Hext as [|? ? (p & c & -> & Hcls & Hi & Hc) Hxs]; subst.
    inversion Hnd as [|? ? Hnotin Hnd']; subst.
    rewrite (inject_port_extension fname _ _ _ _ Hdb Hcls Hc Hi).
    assert (Hco : class_of (VDict p) = Some c).
    { simpl. now rewrite Hcls. }
    rewrite (IH _ (ports ++ [(c, VDict p)])%list (with_ports_get _ _)).
    + rewrite with_ports_twice, <- app_assoc.
      replace (entry (VDict p)) with (c, VDict p); [reflexivity|].
      unfold entry. now rewrite Hco.
    + apply Forall_forall. intros y Hy.
      destruct (proj1 (Forall_forall _ _) Hxs y Hy)
        as (q & c' & -> & Hcls' & Hi' & Hc').
      exists q, c'. repeat (split; [assumption || reflexivity|]).
      rewrite get_app, Hc'. simpl.
      destruct (String.eqb_spec c' c) as [->|]; auto.
      exfalso. apply Hnotin.
      change (In (class_of (VDict p)) (map class_of xs)). rewrite Hco.
      apply in_map_iff. exists (VDict q). split; auto.
      simpl. now rewrite Hcls'.
    + exact Hnd'.
Qed.

Lemma keys_entries_nodup (ports : dict) (records : list value) :
  Forall (extends ports) records ->
  NoDup (map class_of records) ->
  NoDup (keys (map entry records)).
Proof.
  induction records as [|x xs IH]; intros Hext Hnd; simpl;
    [constructor|].
  inversion Hext as [|? ? (p & c & -> & Hcls & _ & _) Hxs]; subst.
  inversion Hnd as [|? ? Hnotin Hnd']; subst.
  constructor; [|now apply IH].
  intros Hin. apply Hnotin. unfold keys in Hin. rewrite map_map in Hin.
  apply in_map_iff in Hin as (y & Hy & Hyin).
  apply in_map_iff. exists y. split; auto.
  destruct (proj1 (Forall_forall _ _) Hxs y Hyin)
    as (q & c' & -> & Hcls' & _ & _).
  simpl in *. rewrite Hcls' in *. rewrite Hcls in *. simpl in Hy.
  congruence.
Qed.

Lemma extends_permutation (ports : dict) (rs rs' : list value) :
  Permutation rs rs' ->
  Forall (extends ports) rs -> NoDup (map class_of rs) ->
  Forall (extends ports) rs' /\ NoDup (map class_of rs').
Proof.
  intros Hp Hext Hnd. split.
  - apply Forall_forall. intros x Hx.
    apply (proj1 (Forall_forall _ _) Hext).
    eapply Permutation_in; [apply Permutation_sym; exact Hp | exact Hx].
  - eapply Permutation_NoDup; [|exact Hnd]. now apply Permutation_map.
Qed.

(** C7. Records that add pairwise distinct new classes can be given in
    any order: the run ends without error either way, and the two merged
    mappings hold the same entries and answer every lookup alike.
    Updates are order dependent: after a run that ends without error, a
    field of a class holds the value given by the last record of that
    class that carries the field; swapping two updates of one field
    changes the outcome. *)
Theorem C7_merge_order :
  (forall db ports req req' fname fname' rs rs',
     get "module-ports" db = Some (VDict ports) ->
     get "file_path" req = Some fname ->
     get "module-ports" req = Some (VList rs) ->
     get "file_path" req' = Some fname' ->
     get "module-ports" req' = Some (VList rs') ->
     Permutation rs rs' ->
     Forall (extends ports) rs -> NoDup (map class_of rs) ->
     exists m m',
       injectAfuIfcChanges db req = (with_ports m db, Ok tt) /\
       injectAfuIfcChanges db req' = (with_ports m' db, Ok tt) /\
       Permutation m m' /\
       forall c, get c m = get c m') /\
  (forall db ports req fname pre r post c k v db' u,
     get "module-ports" db = Some (VDict ports) ->
     get "file_path" req = Some fname ->
     get "module-ports" req = Some (VList (pre ++ VDict r :: post)%list) ->
     injectAfuIfcChanges db req = (db', Ok u) ->
     get "class" r = Some (VStr c) ->
     k <> "class" -> get k r = Some v ->
     Forall (fun r' => forall p, r' = VDict p ->
                                 get "class" p = Some (VStr c) ->
                                 get k p = None) post ->
     exists m p,
       get "module-ports" db' = Some (VDict m) /\
       get c m = Some (VDict p) /\ get k p = Some v) /\
  fst (injectAfuIfcChanges afu_db_clk (req_overrides [rec_min 2; rec_min 3]))
  <> fst (injectAfuIfcChanges afu_db_clk
            (req_overrides [rec_min 3; rec_min 2])).
Proof.
  split; [|split].
  - intros db ports req req' fname fname' rs rs' Hdb Hf Hm Hf' Hm' Hp
      Hext Hnd.
    destruct (extends_permutation _ _ _ Hp Hext Hnd) as [Hext' Hnd'].
    exists (ports ++ map entry rs)%list, (ports ++ map entry rs')%list.
    unfold injectAfuIfcChanges. rewrite Hf, Hm, Hf', Hm'.
    split; [now apply inject_ports_extensions|].
    split; [now apply inject_ports_extensions|].
    split.
    + apply Permutation_app_head. now apply Permutation_map.
    + intros c. rewrite !get_app. destruct (get c ports); auto.
      apply get_permutation.
      * now apply keys_entries_nodup with (ports := ports).
      * now apply Permutation_map.
  - intros db ports req fname pre r post c k v db' u Hdb Hf Hm Hrun Hcls
      Hne Hv Hpost.
    unfold injectAfuIfcChanges in Hrun. rewrite Hf, Hm in Hrun.
    rewrite inject_ports_app in Hrun.
    destruct (inject_ports fname pre db) as [db0 [u0| | |]] eqn:Hpre;
      try discriminate.
    destruct (inject_ports_ok_invariant fname (fun _ => True)
                (fun _ => True) (fun _ _ _ _ _ _ _ => I) pre _ _ _ _
                (proj2 (Forall_forall _ _) (fun _ _ => I)) Hdb I Hpre)
      as (ports0 & Hdb0 & _).
    cbn [inject_ports] in Hrun.
    destruct (inject_port fname (VDict r) db0) as [db1 [u1| | |]] eqn:Hr;
      try discriminate.
    destruct (inject_port_ok_inv _ _ _ _ _ _ Hdb0 Hr)
      as (r' & c' & [= <-] & Hcls' & -> & Hbase).
    assert (c' = c) by congruence. subst c'.
    pose proof (get_some_in_keys _ _ _ Hv) as Hin.
    assert (HP : exists p, get c (merge_record c r ports0) = Some (VDict p)
                           /\ get k p = Some v).
    { unfold merge_record. destruct (get c ports0) as [b|] eqn:Hc.
      - destruct Hbase with (k := k) as [base Hb];
          [discriminate | assumption | assumption |].
        injection Hb as ->. rewrite get_set_same. eexists. split; eauto.
        now apply apply_fields_sets.
      - rewrite get_set_same. eauto. }
    destruct (inject_ports_ok_invariant fname
                (fun m => exists p, get c m = Some (VDict p)
                                    /\ get k p = Some v)
                (fun r' => forall p, r' = VDict p ->
                                     get "class" p = Some (VStr c) ->
                                     get k p = None))
      with (records := post) (db := with_ports (merge_record c r ports0) db0)
           (db' := db') (ports := merge_record c r ports0) (u := u)
      as (m & Hm' & p & Hp & Hkp);
      [| assumption | apply with_ports_get | assumption | assumption
       | exists m, p; auto].
    intros r' c' m HQ Hcls2 (p & Hp & Hkp) _.
    destruct (String.eqb_spec c' c) as [->|Hne'].
    + unfold merge_record. rewrite Hp, get_set_same.
      eexists. split; [reflexivity|].
      rewrite apply_fields_other; [assumption|].
      apply get_none_not_in_keys. now apply HQ.
    + rewrite merge_record_other by assumption. eauto.
  - vm_compute. discriminate.
Qed.

(** Two new classes in either order, and two updates of [min-entries]
    after which the port holds the later value, 3. *)
Lemma C7_witness_extensions_and_last_update :
  (exists m m',
     injectAfuIfcChanges afu_db_clk
       (req_overrides [VDict rec_new_n; VDict rec_new_m]) =
       (with_ports m afu_db_clk, Ok tt) /\
     injectAfuIfcChanges afu_db_clk
       (req_overrides [VDict rec_new_m; VDict rec_new_n]) =
       (with_ports m' afu_db_clk, Ok tt) /\
     Permutation m m' /\
     forall c, get c m = get c m') /\
  (exists m p,
     get "module-ports"
       (fst (injectAfuIfcChanges afu_db_clk
               (req_overrides [rec_min 2; rec_min 3]))) = Some (VDict m) /\
     get "clk" m = Some (VDict p) /\
     get "min-entries" p = Some (VInt 3)).
Proof.
  destruct C7_merge_order as (HA & HB & _). split.
  - apply (HA afu_db_clk [("clk", VDict req_clk)] _ _
             (VStr "afu.json") (VStr "afu.json")
             [VDict rec_new_n; VDict rec_new_m]
             [VDict rec_new_m; VDict rec_new_n]);
      try reflexivity.
    + apply perm_swap.
    + repeat constructor.
      * exists rec_new_n, "n". repeat split; reflexivity.
      * exists rec_new_m, "m". repeat split; reflexivity.
    + repeat constructor; simpl; intuition discriminate.
  - apply (HB afu_db_clk [("clk", VDict req_clk)]
             (req_overrides [rec_min 2; rec_min 3]) (VStr "afu.json")
             [rec_min 2] [("class", VStr "clk"); ("min-entries", VInt 3)]
             [] "clk" "min-entries" (VInt 3) _ tt);
      try reflexivity.
    + discriminate.
    + constructor.
Defined.

(** ** Legacy clean-up *)

Lemma del_set_other (k k' : string) (v : value) (d : dict) :
  k <> k' -> mem k' d = true -> del k (set k' v d) = set k' v (del k d).
Proof.
  intros Hne. unfold mem. induction d as [|[k0 v0] r IH]; simpl;
    [discriminate|].
  destruct (String.eqb_spec k' k0) as [->|Hne0]; simpl.
  - intros _. destruct (String.eqb_spec k k0); [contradiction|].
    simpl. now rewrite String.eqb_refl.
  - intros H. destruct (String.eqb_spec k k0); simpl.
    + now apply IH.
    + destruct (String.eqb_spec k' k0); [contradiction|].
      now rewrite IH.
Qed.

Lemma clean_legacy_no_legacy (d : dict) :
  get "module-arguments" (clean_legacy d) = None /\
  get "name" (clean_legacy d) = None.
Proof.
  unfold clean_legacy.
  set (d1 := match get "module-arguments" d with
             | Some v => set "module-ports" v (del "module-arguments" d)
             | None => d
             end).
  assert (H1 : get "module-arguments" d1 = None).
  { subst d1. destruct (get "module-arguments" d) eqn:E; auto.
    rewrite get_set_other by discriminate. apply get_del_same. }
  destruct (get "name" d1) eqn:E; [|auto]. split.
  - rewrite get_set_other, get_del_other by discriminate. exact H1.
  - rewrite get_set_other by discriminate. apply get_del_same.
Qed.

Lemma clean_legacy_fixed (d : dict) :
  get "module-arguments" d = None -> get "name" d = None ->
  clean_legacy d = d.
Proof. intros H1 H2. unfold clean_legacy. now rewrite H1, H2. Qed.

(** C8. The clean-up of legacy names is idempotent: once
    [module-arguments] has become [module-ports] and [name] has become
    [class], a second pass changes nothing. *)
Theorem C8_clean_legacy_idempotent (afu_ifc : dict) :
  clean_legacy (clean_legacy afu_ifc) = clean_legacy afu_ifc.
Proof.
  destruct (clean_legacy_no_legacy afu_ifc) as [H1 H2].
  now apply clean_legacy_fixed.
Qed.

(** C9. A descriptor that holds both [module-arguments] and
    [module-ports]: after the clean-up [module-arguments] is gone and
    [module-ports] holds the legacy value; what [module-ports] held
    before has no influence on the result. *)
Theorem C9_legacy_ports_overwrite_current (afu_ifc : dict)
    (legacy current : value) :
  get "module-arguments" afu_ifc = Some legacy ->
  get "module-ports" afu_ifc = Some current ->
  get "module-arguments" (clean_legacy afu_ifc) = None /\
  get "module-ports" (clean_legacy afu_ifc) = Some legacy /\
  forall other,
    clean_legacy (set "module-ports" other afu_ifc) = clean_legacy afu_ifc.
Proof.
  intros Hl Hc. split; [apply clean_legacy_no_legacy|]. split.
  - unfold clean_legacy. rewrite Hl.
    destruct (get "name" _) eqn:E.
    + rewrite get_set_other, get_del_other by discriminate.
      apply get_set_same.
    + apply get_set_same.
  - intros other. unfold clean_legacy.
    rewrite get_set_other by discriminate. rewrite Hl.
    rewrite del_set_other;
      [| discriminate | apply mem_true_iff; eauto].
    now rewrite set_set_same.
Qed.

Lemma C9_witness_both_keys :
  clean_legacy afu_ifc_both =
  [("class", VStr "ccip_std_afu"); ("module-ports", VList [rec_min 2])] /\
  get "module-ports" (clean_legacy afu_ifc_both) = Some (VList [rec_min 2]).
Proof.
  split; [reflexivity|].
  exact (proj1 (proj2 (C9_legacy_ports_overwrite_current afu_ifc_both
                         (VList [rec_min 2]) (VList [VDict rec_new_n])
                         eq_refl eq_refl))).
Defined.

(** * Further properties of the code *)

(** ** matchAfuPorts: what a run returns *)

(** An iteration that ends without error has looked at a port with a
    string class and interface, and has appended a match exactly when
    the key is offered. *)
Lemma match_port_ok_inv (afu_name plat_name : value) (offered : dict)
    (port : value) (r : option port_match) :
  match_port afu_name plat_name offered port = Ok r ->
  match r with
  | None => has_offer offered port = false
  | Some m =>
      has_offer offered port = true /\ afu m = port /\
      pairs_with_offer offered m
  end.
Proof.
  unfold match_port. intros H.
  destruct port as [| | | | |p]; try discriminate H.
  cbn [getitem bind] in H.
  destruct (get "class" p) as [cv|] eqn:Hc; [|discriminate H].
  cbn [bind] in H. destruct cv as [| | |c| |]; try discriminate H.
  cbn [str_add bind getitem] in H.
  destruct (get "interface" p) as [iv|] eqn:Hi; [|discriminate H].
  cbn [bind] in H. destruct iv as [| | |i| |]; try discriminate H.
  cbn [str_add bind] in H.
  unfold has_offer. rewrite Hc, Hi. unfold mem in *.
  destruct (get ((c ++ "/") ++ i) offered) as [pm|] eqn:Ho;
    cbn [negb bind getitem] in H.
  - cbn [bind] in H.
    assert (G : forall o, r = Some (mkMatch (VDict p) pm o) ->
                match r with
                | None => true = false
                | Some m =>
                    true = true /\ afu m = VDict p /\
                    pairs_with_offer offered m
                end).
    { intros o ->. split; [reflexivity|]. split; [reflexivity|].
      exists p, c, i. repeat split; assumption. }
    repeat match type of H with
           | bind ?x _ = _ =>
               destruct x as [?| | |]; cbn [bind] in H; try discriminate H
           | (if ?b then _ else _) = _ => destruct b; try discriminate H
           end;
      injection H as <-; eapply G; reflexivity.
  - unfold not_ in H. cbn [bind getitem] in H.
    destruct (get "optional" p) as [ov|]; [|discriminate H].
    cbn [bind] in H. destruct (negb (truthy ov)); [discriminate H|].
    now injection H as <-.
Qed.

Lemma match_ports_ok_inv (afu_name plat_name : value) (offered : dict)
    (ports : list value) :
  forall acc ms,
    match_ports afu_name plat_name offered ports acc = Ok ms ->
    exists new,
      ms = (acc ++ new)%list /\
      map afu new = filter (has_offer offered) ports /\
      Forall (pairs_with_offer offered) new.
Proof.
  induction ports as [|port rest IH]; intros acc ms H; simpl in H.
  - injection H as <-. exists []. rewrite app_nil_r. repeat split.
    constructor.
  - destruct (match_port afu_name plat_name offered port) as [r| | |] eqn:E;
      try discriminate H.
    cbn [bind] in H. apply match_port_ok_inv in E.
    destruct (IH _ _ H) as (new & -> & Hmap & Hall).
    destruct r as [m|]; simpl.
    + destruct E as (Ho & Ha & Hp). rewrite Ho.
      exists (m :: new). rewrite <- app_assoc. split; [reflexivity|].
      split; [simpl; now rewrite Ha, Hmap | now constructor].
    + rewrite E. exists new. auto.
Qed.

(** X1. A run of [matchAfuPorts] that returns has found both port
    collections to be dictionaries; the ports of the matches it returns
    are, in the order of the mapping, exactly the requested ports whose
    key [class/interface] is offered, and each match holds the offering
    stored under the key of its port. *)
Theorem matchAfuPorts_returns_offered_ports_in_order (verbose : bool)
    (afu_ifc_db platform_db : dict) (ms : list port_match) :
  matchAfuPorts verbose afu_ifc_db platform_db = Ok ms ->
  exists ports offered,
    get "module-ports" afu_ifc_db = Some (VDict ports) /\
    get "module-ports-offered" platform_db = Some (VDict offered) /\
    map afu ms = filter (has_offer offered) (values ports) /\
    Forall (pairs_with_offer offered) ms.
Proof.
  unfold matchAfuPorts, getitem. intros H.
  destruct (get "file_name" afu_ifc_db); [|discriminate H].
  destruct (get "file_name" platform_db); [|discriminate H].
  cbn [bind] in H.
  destruct (get "module-ports" afu_ifc_db) as [mp|]; [|discriminate H].
  cbn [bind] in H.
  destruct mp as [| | | | |ports];
    try (destruct (get "file_path" afu_ifc_db); discriminate H).
  destruct (get "module-ports-offered" platform_db) as [mpo|];
    [|discriminate H].
  cbn [bind] in H.
  destruct mpo as [| | | | |offered];
    try (destruct (get "file_path" platform_db); discriminate H).
  destruct (verbose && negb (listing_ok ports && listing_ok offered));
    [discriminate H|].
  destruct (match_ports_ok_inv _ _ _ _ _ _ H) as (new & -> & Hmap & Hall).
  exists ports, offered. auto.
Qed.

Lemma matchAfuPorts_returns_offered_ports_witness :
  exists ms,
    matchAfuPorts true afu_db_clk_and_optional plat_db_clk = Ok ms /\
    map afu ms = [VDict req_clk].
Proof.
  eexists. split; [reflexivity|].
  destruct (matchAfuPorts_returns_offered_ports_in_order true
              afu_db_clk_and_optional plat_db_clk _ eq_refl)
    as (ports & offered & Hp & Ho & Hmap & _).
  injection Hp as <-. injection Ho as <-. exact Hmap.
Defined.

(** X2. A requirement port and the offering under its key, neither of
    them a vector: the match is recorded without [num-entries], whatever
    entry bounds either side carries, and the loop goes on. *)
Theorem match_port_scalar (afu_name plat_name : value)
    (offered port plat_match : dict) (c i : string) (pv ov : value) :
  keyed port c i ->
  get ((c ++ "/") ++ i) offered = Some (VDict plat_match) ->
  get "vector" port = Some pv -> truthy pv = false ->
  get "vector" plat_match = Some ov -> truthy ov = false ->
  match_port afu_name plat_name offered (VDict port) =
    Ok (Some (mkMatch (VDict port) (VDict plat_match) None)) /\
  forall rest acc,
    match_ports afu_name plat_name offered (VDict port :: rest) acc =
    match_ports afu_name plat_name offered rest
      (acc ++ [mkMatch (VDict port) (VDict plat_match) None])%list.
Proof.
  intros [Hc Hi] Hoff Hpv Tpv Hov Tov.
  assert (E : match_port afu_name plat_name offered (VDict port) =
              Ok (Some (mkMatch (VDict port) (VDict plat_match) None))).
  { unfold match_port. simpl getitem at 1. rewrite Hc. simpl.
    rewrite Hi. simpl. unfold mem. rewrite Hoff. simpl.
    unfold not_. simpl. rewrite Hpv, Hov. simpl. now rewrite Tpv, Tov. }
  split; [exact E|]. intros rest acc. simpl. now rewrite E.
Qed.

Lemma match_port_scalar_witness :
  match_port (VStr "afu") (VStr "plat")
    [("clk/std", VDict (set "vector" (VBool false) off_clk))]
    (VDict (set "vector" (VBool false) req_clk)) =
  Ok (Some (mkMatch (VDict (set "vector" (VBool false) req_clk))
              (VDict (set "vector" (VBool false) off_clk)) None)).
Proof.
  refine (proj1 (match_port_scalar (VStr "afu") (VStr "plat")
            [("clk/std", VDict (set "vector" (VBool false) off_clk))]
            (set "vector" (VBool false) req_clk)
            (set "vector" (VBool false) off_clk) "clk" "std"
            (VBool false) (VBool false) _ eq_refl eq_refl eq_refl eq_refl
            eq_refl)).
  split; reflexivity.
Defined.

(** X3. A vector requirement that pins its maximum (its [max-entries] is
    not [sys.maxsize]) never gets a default: the size tested and recorded
    is the smaller of the two maxima, whatever [default-entries] either
    side carries. *)
Theorem match_port_pinned_maximum (afu_name plat_name : value)
    (offered port plat_match : dict) (c i : string) (rq off : bounds) :
  keyed port c i ->
  get ((c ++ "/") ++ i) offered = Some (VDict plat_match) ->
  vector_port port rq -> vector_port plat_match off ->
  max_entries rq <> maxsize ->
  let n := Z.min (max_entries rq) (max_entries off) in
  match_port afu_name plat_name offered (VDict port) =
  if n <? min_entries rq then
    Exit (RequiresMoreEntries afu_name (VStr c) (VStr i) plat_name)
  else if n <? min_entries off then
    Exit (RequiresMoreFewerEntries afu_name (VStr c) (VStr i) plat_name)
  else
    Ok (Some (mkMatch (VDict port) (VDict plat_match) (Some (VInt n)))).
Proof.
  intros Hk Hoff Hp Hq Hpin n.
  rewrite (match_port_vector afu_name plat_name _ _ _ _ _ _ _
             Hk Hoff Hp Hq).
  assert (E : clamped rq off = n).
  { unfold clamped, chosen, rule_a, rule_b.
    apply Z.eqb_neq in Hpin. rewrite Hpin. simpl.
    destruct (default_entries rq), (default_entries off); simpl;
      subst n; destruct (Z.ltb_spec (max_entries rq) (max_entries off));
      lia. }
  now rewrite E.
Qed.

Lemma match_port_pinned_maximum_witness :
  match_port (VStr "afu") (VStr "plat") [("clk/std", VDict off_clk)]
    (VDict (set "max-entries" (VInt 3) req_clk)) =
  Ok (Some (mkMatch (VDict (set "max-entries" (VInt 3) req_clk))
              (VDict off_clk) (Some (VInt 3)))).
Proof.
  refine (match_port_pinned_maximum (VStr "afu") (VStr "plat")
            [("clk/std", VDict off_clk)]
            (set "max-entries" (VInt 3) req_clk) off_clk "clk" "std"
            (mkBounds 1 3 (Some 4)) (mkBounds 2 8 None) _ eq_refl _ _ _).
  - split; reflexivity.
  - vector_port_by_eval.
  - vector_port_by_eval.
  - discriminate.
Defined.

(** X4. The choice of a size is never revised.  With an unbounded
    requirement that rule a does not serve, an offering default that
    reaches the requirement's minimum and does not exceed [sys.maxsize]
    is taken by rule b; when that default lies below the offering's own
    minimum the run stops there with the "requires more fewer entries"
    exit, whatever the offering's maximum is. *)
Theorem match_port_no_second_choice (afu_name plat_name : value)
    (offered port plat_match : dict) (c i : string) (rq off : bounds)
    (d : Z) :
  keyed port c i ->
  get ((c ++ "/") ++ i) offered = Some (VDict plat_match) ->
  vector_port port rq -> vector_port plat_match off ->
  max_entries rq = maxsize ->
  rule_a rq off = None ->
  default_entries off = Some d ->
  min_entries rq <= d -> d < min_entries off -> d <= maxsize ->
  match_port afu_name plat_name offered (VDict port) =
  Exit (RequiresMoreFewerEntries afu_name (VStr c) (VStr i) plat_name).
Proof.
  intros Hk Hoff Hp Hq Hmax Ha Hd Hge Hlt Hle.
  rewrite (match_port_vector afu_name plat_name _ _ _ _ _ _ _
             Hk Hoff Hp Hq).
  assert (E : clamped rq off = d).
  { unfold clamped, chosen. rewrite Ha. unfold rule_b. rewrite Hd, Hmax.
    rewrite Z.eqb_refl. simpl.
    destruct (Z.leb_spec (min_entries rq) d); [|lia].
    destruct (Z.ltb_spec maxsize d); lia. }
  rewrite E.
  destruct (Z.ltb_spec d (min_entries rq)); [lia|].
  destruct (Z.ltb_spec d (min_entries off)); [reflexivity|lia].
Qed.

(** The offering [2..8] with default 1: the maximum 8 would do, the
    default 1 is taken and refused. *)
Lemma match_port_no_second_choice_witness :
  match_port (VStr "afu") (VStr "plat")
    [("clk/std", VDict (set "default-entries" (VInt 1) off_clk))]
    (VDict req_clk_nodef) =
  Exit (RequiresMoreFewerEntries (VStr "afu") (VStr "clk") (VStr "std")
          (VStr "plat")).
Proof.
  refine (match_port_no_second_choice (VStr "afu") (VStr "plat")
            [("clk/std", VDict (set "default-entries" (VInt 1) off_clk))]
            req_clk_nodef (set "default-entries" (VInt 1) off_clk)
            "clk" "std" (mkBounds 1 maxsize None) (mkBounds 2 8 (Some 1))
            1 _ eq_refl _ _ eq_refl eq_refl eq_refl _ _ _).
  - split; reflexivity.
  - vector_port_by_eval.
  - vector_port_by_eval.
  - simpl. lia.
  - simpl. lia.
  - unfold maxsize. lia.
Defined.


Lemma listing_ok_true (d : dict) :
  (forall r, In r (values d) ->
             exists c i, getitem r "class" = Ok c /\
                         getitem r "interface" = Ok i) ->
  listing_ok d = true.
Proof.
  intros H. unfold listing_ok. apply forallb_forall. intros r Hr.
  destruct (H r Hr) as (c & i & -> & ->). reflexivity.
Qed.

Lemma listing_ok_false (d : dict) (r : value) :
  In r (values d) ->
  getitem r "class" = PyExc \/ getitem r "interface" = PyExc ->
  listing_ok d = false.
Proof.
  intros Hr Hbad. unfold listing_ok.
  destruct (forallb _ (values d)) eqn:E; [|reflexivity].
  pose proof (proj1 (forallb_forall _ _) E r Hr) as H. cbv beta in H.
  destruct Hbad as [Hb|Hb]; rewrite Hb in H; [discriminate H|].
  destruct (getitem r "class"); discriminate H.
Qed.

(** X24. What [args.verbose] does to the outcome of [matchAfuPorts], on
    two databases that carry [file_name] and whose port collections are
    dictionaries.  When some requested or offered port is not a
    dictionary holding [class] and [interface], the verbose run raises
    at the listing it prints first, whether or not the matching would
    have looked at that port.  When every requested and offered port
    holds both, the verbose run ends exactly as the quiet run does. *)
Theorem matchAfuPorts_verbose (afu_ifc_db platform_db : dict)
    (afu_name plat_name : value) (ports offered : dict) :
  get "file_name" afu_ifc_db = Some afu_name ->
  get "file_name" platform_db = Some plat_name ->
  get "module-ports" afu_ifc_db = Some (VDict ports) ->
  get "module-ports-offered" platform_db = Some (VDict offered) ->
  ((exists r,
      (In r (values ports) \/ In r (values offered)) /\
      (getitem r "class" = PyExc \/ getitem r "interface" = PyExc)) ->
   matchAfuPorts true afu_ifc_db platform_db = PyExc) /\
  ((forall r,
      In r (values ports) \/ In r (values offered) ->
      exists c i, getitem r "class" = Ok c /\
                  getitem r "interface" = Ok i) ->
   matchAfuPorts true afu_ifc_db platform_db =
   matchAfuPorts false afu_ifc_db platform_db).
Proof.
  intros Ha Hp Hm Ho.
  assert (E : forall verbose,
             matchAfuPorts verbose afu_ifc_db platform_db =
             if verbose && negb (listing_ok ports && listing_ok offered)
             then PyExc
             else match_ports afu_name plat_name offered (values ports) []).
  { intros verbose. unfold matchAfuPorts, getitem.
    rewrite Ha, Hp, Hm. cbn [bind]. rewrite Ho. reflexivity. }
  rewrite !E. split.
  - intros (r & [Hr|Hr] & Hbad).
    + now rewrite (listing_ok_false ports r Hr Hbad).
    + rewrite (listing_ok_false offered r Hr Hbad).
      now rewrite andb_false_r.
  - intros Hall.
    rewrite (listing_ok_true ports), (listing_ok_true offered); auto.
Qed.

(** The platform that offers [clk] and holds an entry without [class]
    under a key no port asks for: the quiet run returns the match of
    [clk], the verbose run raises. *)
Lemma matchAfuPorts_verbose_witness :
  matchAfuPorts true afu_db_clk plat_db_clk_and_stray = PyExc /\
  matchAfuPorts false afu_db_clk plat_db_clk_and_stray =
    Ok [mkMatch (VDict req_clk) (VDict off_clk) (Some (VInt 4))] /\
  matchAfuPorts true afu_db_clk plat_db_clk =
    matchAfuPorts false afu_db_clk plat_db_clk.
Proof.
  split; [|split].
  - apply (proj1 (matchAfuPorts_verbose afu_db_clk plat_db_clk_and_stray
                    (VStr "afu") (VStr "plat") [("clk", VDict req_clk)]
                    [("clk/std", VDict off_clk); ("stray", VDict [])]
                    eq_refl eq_refl eq_refl eq_refl)).
    exists (VDict []). split; [right; simpl; auto | left; reflexivity].
  - reflexivity.
  - apply (proj2 (matchAfuPorts_verbose afu_db_clk plat_db_clk
                    (VStr "afu") (VStr "plat") [("clk", VDict req_clk)]
                    [("clk/std", VDict off_clk)]
                    eq_refl eq_refl eq_refl eq_refl)).
    simpl. intros r [[<-|[]]|[<-|[]]]; eexists; eexists; split; reflexivity.
Defined.

(** ** injectAfuIfcChanges: what a run can and cannot change *)

Lemma update_field_cases (c k : string) (v : value) (db : dict) :
  (exists ports base,
     get "module-ports" db = Some (VDict ports) /\
     get c ports = Some (VDict base) /\
     update_field c k v db =
     (with_ports (set c (VDict (set k v base)) ports) db, Ok tt)) \/
  update_field c k v db = (db, PyExc).
Proof.
  unfold update_field.
  destruct (get "module-ports" db) as [[| | | | |ports]|]; auto.
  destruct (get c ports) as [[| | | | |base]|] eqn:Hc; auto.
  left. exists ports, base. auto.
Qed.

(** A property of the database kept by the two writes the run can make,
    the update of a permitted field and the addition of a class the
    mapping lacks, holds of the database the run leaves behind, however
    the run ends. *)
Section Invariant.

Variable P : dict -> Prop.

Hypothesis update_keeps :
  forall db ports base c k v,
    P db ->
    get "module-ports" db = Some (VDict ports) ->
    get c ports = Some (VDict base) ->
    legal k = true -> k <> "class" ->
    P (with_ports (set c (VDict (set k v base)) ports) db).

Hypothesis extend_keeps :
  forall db ports c r,
    P db ->
    get "module-ports" db = Some (VDict ports) ->
    get c ports = None ->
    P (with_ports (set c (VDict r) ports) db).

Lemma override_fields_invariant (fname : value) (c : string) (r : dict)
    (ks : list string) :
  forall db, P db -> P (fst (override_fields fname c r ks db)).
Proof.
  induction ks as [|k ks IH]; intros db HP; simpl; auto.
  destruct (String.eqb_spec k "class"); auto.
  destruct (legal k) eqn:Hl; simpl; auto.
  destruct (get k r) as [v|]; simpl; auto.
  destruct (update_field_cases c k v db)
    as [(ports & base & Hdb & Hc & ->)| ->]; simpl; auto.
Qed.

Lemma inject_port_invariant (fname port : value) :
  forall db, P db -> P (fst (inject_port fname port db)).
Proof.
  intros db HP. unfold inject_port.
  destruct port as [| | | | |p]; simpl; auto.
  destruct (get "class" p) as [c|]; simpl; auto.
  destruct (get "module-ports" db) as [[| | | | |ports]|] eqn:Hdb;
    simpl; auto.
  destruct c as [| | |c| |]; simpl; auto;
    try (destruct (negb (mem "interface" p)); simpl; auto; fail).
  unfold mem. destruct (get c ports) as [b|] eqn:Hc; simpl.
  - now apply override_fields_invariant.
  - destruct (get "interface" p); simpl; auto.
    now apply extend_keeps.
Qed.

Lemma inject_ports_invariant (fname : value) (records : list value) :
  forall db, P db -> P (fst (inject_ports fname records db)).
Proof.
  induction records as [|x xs IH]; intros db HP; simpl; auto.
  pose proof (inject_port_invariant fname x db HP) as H1.
  destruct (inject_port fname x db) as [db1 [u| | |]]; simpl in *; auto.
Qed.

Lemma injectAfuIfcChanges_invariant (afu_ifc_db afu_ifc_req : dict) :
  P afu_ifc_db -> P (fst (injectAfuIfcChanges afu_ifc_db afu_ifc_req)).
Proof.
  intros HP. unfold injectAfuIfcChanges.
  destruct (get "file_path" afu_ifc_req); simpl; auto.
  destruct (get "module-ports" afu_ifc_req) as [[| | | |records|]|];
    simpl; auto.
  now apply inject_ports_invariant.
Qed.

End Invariant.

(** X6. However a run of [injectAfuIfcChanges] ends, every entry of the
    interface database other than [module-ports] ([file_name],
    [file_path] and the rest) is what it was before. *)
Theorem injectAfuIfcChanges_touches_only_module_ports
    (afu_ifc_db afu_ifc_req : dict) (k : string) :
  k <> "module-ports" ->
  get k (fst (injectAfuIfcChanges afu_ifc_db afu_ifc_req)) =
  get k afu_ifc_db.
Proof.
  intros Hne.
  apply (injectAfuIfcChanges_invariant
           (fun db => get k db = get k afu_ifc_db)); auto.
  - intros db ports base c k0 v H _ _ _ _.
    unfold with_ports. rewrite get_set_other; auto.
  - intros db ports c r H _ _.
    unfold with_ports. rewrite get_set_other; auto.
Qed.

Lemma injectAfuIfcChanges_touches_only_module_ports_witness :
  get "file_name"
    (fst (injectAfuIfcChanges afu_db_clk
            (req_overrides [rec_min 2; VDict rec_min_then_interface]))) =
  Some (VStr "afu").
Proof.
  rewrite (injectAfuIfcChanges_touches_only_module_ports afu_db_clk
             (req_overrides [rec_min 2; VDict rec_min_then_interface])
             "file_name").
  - reflexivity.
  - discriminate.
Defined.

(** X7. The fields outside the allow-list are out of reach.  For a port
    of the base set and a field [k] other than [default-entries],
    [max-entries], [min-entries], [optional] and [params]: however the run
    ends, the port is still in the set and its field [k] ([class],
    [interface], [vector], ...) is what it was, absent if it was
    absent. *)
Theorem injectAfuIfcChanges_keeps_structural_fields
    (afu_ifc_db afu_ifc_req ports base : dict) (c k : string) :
  get "module-ports" afu_ifc_db = Some (VDict ports) ->
  get c ports = Some (VDict base) ->
  legal k = false ->
  exists ports' base',
    get "module-ports" (fst (injectAfuIfcChanges afu_ifc_db afu_ifc_req)) =
      Some (VDict ports') /\
    get c ports' = Some (VDict base') /\
    get k base' = get k base.
Proof.
  intros Hdb Hc Hl.
  apply (injectAfuIfcChanges_invariant
           (fun db => exists ports' base',
                        get "module-ports" db = Some (VDict ports') /\
                        get c ports' = Some (VDict base') /\
                        get k base' = get k base)).
  - intros db ps b c0 k0 v (ps' & b' & H1 & H2 & H3) Hps Hb Hl0 _.
    rewrite H1 in Hps. injection Hps as <-.
    exists (set c0 (VDict (set k0 v b)) ps').
    destruct (String.eqb_spec c0 c) as [->|Hne].
    + rewrite H2 in Hb. injection Hb as <-.
      exists (set k0 v b'). rewrite with_ports_get, get_set_same.
      repeat split. rewrite get_set_other; [assumption|]. congruence.
    + exists b'. rewrite with_ports_get. rewrite get_set_other by assumption.
      auto.
  - intros db ps c0 r (ps' & b' & H1 & H2 & H3) Hps Hnone.
    rewrite H1 in Hps. injection Hps as <-.
    exists (set c0 (VDict r) ps'), b'. rewrite with_ports_get.
    rewrite get_set_other by congruence. auto.
  - exists ports, base. auto.
Qed.

(** The request that was refused at its [interface] field: the port
    still names the interface [std]. *)
Lemma injectAfuIfcChanges_keeps_structural_fields_witness :
  exists ports' base',
    get "module-ports"
      (fst (injectAfuIfcChanges afu_db_clk
              (req_overrides [VDict rec_min_then_interface]))) =
      Some (VDict ports') /\
    get "clk" ports' = Some (VDict base') /\
    get "interface" base' = Some (VStr "std").
Proof.
  exact (injectAfuIfcChanges_keeps_structural_fields afu_db_clk
           (req_overrides [VDict rec_min_then_interface])
           [("clk", VDict req_clk)] req_clk "clk" "interface"
           eq_refl eq_refl eq_refl).
Defined.

Lemma apply_fields_class (r : dict) (ks : list string) :
  forall base, get "class" (apply_fields r ks base) = get "class" base.
Proof.
  induction ks as [|k ks IH]; intros base; simpl; auto.
  destruct (String.eqb_spec k "class"); auto.
  destruct (get k r); auto.
  rewrite IH. now apply get_set_other.
Qed.

Lemma apply_fields_fixed (r : dict) (ks : list string) :
  forall d,
    (forall k v, In k ks -> k <> "class" -> get k r = Some v ->
                 get k d = Some v) ->
    apply_fields r ks d = d.
Proof.
  induction ks as [|k ks IH]; intros d H; simpl; auto.
  assert (H' : forall k0 v, In k0 ks -> k0 <> "class" ->
                            get k0 r = Some v -> get k0 d = Some v).
  { intros k0 v Hin. apply H. now right. }
  destruct (String.eqb_spec k "class"); auto.
  destruct (get k r) as [v|] eqn:Hv; auto.
  rewrite (set_same_id k v d); auto. apply H; auto. now left.
Qed.

Lemma all_keys_permitted (r : dict) :
  (forall k, In k (keys r) -> k = "class" \/ legal k = true) ->
  Forall (fun k => k = "class" \/ legal k = true) (keys r).
Proof. intros H. now apply Forall_forall. Qed.

Lemma inject_port_permitted (fname : value) (r db ports base : dict)
    (c : string) :
  get "module-ports" db = Some (VDict ports) ->
  get "class" r = Some (VStr c) ->
  get c ports = Some (VDict base) ->
  (forall k, In k (keys r) -> k = "class" \/ legal k = true) ->
  inject_port fname (VDict r) db =
  (with_ports (set c (VDict (apply_fields r (keys r) base)) ports) db,
   Ok tt).
Proof.
  intros Hdb Hcls Hc Hall.
  unfold inject_port. rewrite Hcls, Hdb. unfold mem. rewrite Hc. simpl.
  apply override_fields_legal; auto using all_keys_permitted, incl_refl.
Qed.

(** X8. An update record that carries only permitted fields cannot
    fail.  It leaves the port holding the record's value in every field
    the record carries, and what the port held before in every other
    field, [class] included; the ports of the other classes are not
    touched. *)
Theorem inject_port_permitted_update (fname : value)
    (r db ports base : dict) (c : string) :
  get "module-ports" db = Some (VDict ports) ->
  get "class" r = Some (VStr c) ->
  get c ports = Some (VDict base) ->
  (forall k, In k (keys r) -> k = "class" \/ legal k = true) ->
  exists base',
    inject_port fname (VDict r) db =
      (with_ports (set c (VDict base') ports) db, Ok tt) /\
    (forall k v, k <> "class" -> get k r = Some v ->
                 get k base' = Some v) /\
    (forall k, k = "class" \/ get k r = None ->
               get k base' = get k base) /\
    (forall c', c' <> c ->
                get c' (set c (VDict base') ports) = get c' ports).
Proof.
  intros Hdb Hcls Hc Hall.
  exists (apply_fields r (keys r) base).
  split; [now apply inject_port_permitted|]. split; [|split].
  - intros k v Hne Hv. apply apply_fields_sets; auto.
    eapply get_some_in_keys; eauto.
  - intros k [->|Hn]; [apply apply_fields_class|].
    apply apply_fields_other. now apply get_none_not_in_keys.
  - intros c' Hne. apply get_set_other. congruence.
Qed.

Lemma inject_port_permitted_update_witness :
  exists base',
    inject_port (VStr "afu.json") (rec_min 2) afu_db_clk =
      (with_ports [("clk", VDict base')] afu_db_clk, Ok tt) /\
    get "min-entries" base' = Some (VInt 2) /\
    get "max-entries" base' = Some (VInt maxsize).
Proof.
  destruct (inject_port_permitted_update (VStr "afu.json")
              [("class", VStr "clk"); ("min-entries", VInt 2)]
              afu_db_clk [("clk", VDict req_clk)] req_clk "clk"
              eq_refl eq_refl eq_refl)
    as (base' & E & Hset & Hkeep & _).
  - simpl. intros k [<-|[<-|[]]]; auto.
  - exists base'. split; [exact E|]. split.
    + apply Hset; [discriminate | reflexivity].
    + rewrite (Hkeep "max-entries"); [reflexivity | now right].
Defined.

(** X9. Giving the same permitted update twice is the same as giving it
    once. *)
Theorem inject_ports_update_idempotent (fname : value)
    (r db ports base : dict) (c : string) :
  get "module-ports" db = Some (VDict ports) ->
  get "class" r = Some (VStr c) ->
  get c ports = Some (VDict base) ->
  (forall k, In k (keys r) -> k = "class" \/ legal k = true) ->
  inject_ports fname [VDict r; VDict r] db =
  inject_ports fname [VDict r] db.
Proof.
  intros Hdb Hcls Hc Hall. cbn [inject_ports].
  rewrite (inject_port_permitted fname _ _ _ _ _ Hdb Hcls Hc Hall).
  set (base' := apply_fields r (keys r) base).
  rewrite (inject_port_permitted fname r _ (set c (VDict base') ports)
             base' c (with_ports_get _ _) Hcls (get_set_same _ _ _) Hall).
  rewrite with_ports_twice, set_set_same.
  rewrite (apply_fields_fixed r (keys r) base'); [reflexivity|].
  intros k v Hin Hne Hv. subst base'. now apply apply_fields_sets.
Qed.

Lemma inject_ports_update_idempotent_witness :
  inject_ports (VStr "afu.json") [rec_min 2; rec_min 2] afu_db_clk =
  inject_ports (VStr "afu.json") [rec_min 2] afu_db_clk.
Proof.
  apply (inject_ports_update_idempotent (VStr "afu.json")
           [("class", VStr "clk"); ("min-entries", VInt 2)]
           afu_db_clk [("clk", VDict req_clk)] req_clk "clk"
           eq_refl eq_refl eq_refl).
  simpl. intros k [<-|[<-|[]]]; auto.
Defined.

Lemma set_app_absent (k : string) (v : value) (d e : dict) :
  get k d = None -> set k v (d ++ e)%list = (d ++ set k v e)%list.
Proof.
  induction d as [|[k' v'] r IH]; simpl; auto.
  destruct (String.eqb k k'); [discriminate|]. intros H. now rewrite IH.
Qed.

(** X10. A record that adds a class and a later record of that class
    with only permitted fields compose: the run ends without error and
    the new port, last in the mapping, is the first record with the
    fields of the second written onto it. *)
Theorem inject_ports_extend_then_update (fname : value)
    (db ports r1 r2 : dict) (c : string) :
  get "module-ports" db = Some (VDict ports) ->
  get c ports = None ->
  get "class" r1 = Some (VStr c) -> mem "interface" r1 = true ->
  get "class" r2 = Some (VStr c) ->
  (forall k, In k (keys r2) -> k = "class" \/ legal k = true) ->
  inject_ports fname [VDict r1; VDict r2] db =
  (with_ports
     (ports ++ [(c, VDict (apply_fields r2 (keys r2) r1))])%list db,
   Ok tt).
Proof.
  intros Hdb Hc Hc1 Hi1 Hc2 Hall. cbn [inject_ports].
  rewrite (inject_port_extension fname _ _ _ _ Hdb Hc1 Hc Hi1).
  rewrite (inject_port_permitted fname r2 _ (ports ++ [(c, VDict r1)])%list
             r1 c (with_ports_get _ _) Hc2).
  - rewrite with_ports_twice, (set_app_absent _ _ _ _ Hc). simpl.
    now rewrite String.eqb_refl.
  - rewrite get_app, Hc. simpl. now rewrite String.eqb_refl.
  - exact Hall.
Qed.

Lemma inject_ports_extend_then_update_witness :
  inject_ports (VStr "afu.json")
    [VDict rec_new_n;
     VDict [("class", VStr "n"); ("optional", VBool true)]] afu_db_clk =
  (with_ports
     [("clk", VDict req_clk);
      ("n", VDict [("class", VStr "n"); ("interface", VStr "x");
                   ("optional", VBool true)])] afu_db_clk,
   Ok tt).
Proof.
  apply (inject_ports_extend_then_update (VStr "afu.json") afu_db_clk
           [("clk", VDict req_clk)] rec_new_n
           [("class", VStr "n"); ("optional", VBool true)] "n"
           eq_refl eq_refl eq_refl eq_refl eq_refl).
  simpl. intros k [<-|[<-|[]]]; auto.
Defined.

Lemma set_set_comm (k k' : string) (v v' : value) (d : dict) :
  k <> k' -> mem k d = true -> mem k' d = true ->
  set k v (set k' v' d) = set k' v' (set k v d).
Proof.
  intros Hne. unfold mem. induction d as [|[k0 v0] r IH]; simpl;
    [discriminate|].
  destruct (String.eqb_spec k k0) as [->|H0], (String.eqb_spec k' k0)
    as [->|H0']; simpl; try congruence.
  - intros _ _. rewrite String.eqb_refl.
    destruct (String.eqb_spec k' k0); congruence.
  - intros _ _. rewrite String.eqb_refl.
    destruct (String.eqb_spec k k0); congruence.
  - intros H1 H2. destruct (String.eqb_spec k k0); [congruence|].
    destruct (String.eqb_spec k' k0); [congruence|]. now rewrite IH.
Qed.

(** X11. Permitted updates of two different classes of the base set
    can be given in either order: both runs end without error, and they
    leave the same database, in which each of the two ports carries the
    fields of its record. *)
Theorem inject_ports_updates_of_two_classes_commute (fname : value)
    (db ports r1 r2 b1 b2 : dict) (c1 c2 : string) :
  get "module-ports" db = Some (VDict ports) ->
  c1 <> c2 ->
  get "class" r1 = Some (VStr c1) -> get c1 ports = Some (VDict b1) ->
  get "class" r2 = Some (VStr c2) -> get c2 ports = Some (VDict b2) ->
  (forall k, In k (keys r1) -> k = "class" \/ legal k = true) ->
  (forall k, In k (keys r2) -> k = "class" \/ legal k = true) ->
  let db' :=
    with_ports
      (set c2 (VDict (apply_fields r2 (keys r2) b2))
         (set c1 (VDict (apply_fields r1 (keys r1) b1)) ports)) db in
  inject_ports fname [VDict r1; VDict r2] db = (db', Ok tt) /\
  inject_ports fname [VDict r2; VDict r1] db = (db', Ok tt).
Proof.
  intros Hdb Hne Hc1 Hb1 Hc2 Hb2 H1 H2 db'. subst db'.
  cbn [inject_ports].
  rewrite (inject_port_permitted fname _ _ _ _ _ Hdb Hc1 Hb1 H1).
  rewrite (inject_port_permitted fname _ _ _ _ _ Hdb Hc2 Hb2 H2).
  rewrite (inject_port_permitted fname r2 _ _ b2 c2 (with_ports_get _ _)
             Hc2); [| now rewrite get_set_other | exact H2].
  rewrite (inject_port_permitted fname r1 _ _ b1 c1 (with_ports_get _ _)
             Hc1); [| now rewrite get_set_other by congruence | exact H1].
  rewrite !with_ports_twice. split; [reflexivity|].
  rewrite (set_set_comm c1 c2 _ _ ports); auto;
    apply mem_true_iff; eauto.
Qed.

Lemma inject_ports_updates_of_two_classes_commute_witness :
  exists db',
    inject_ports (VStr "afu.json")
      [rec_min 2; VDict [("class", VStr "a"); ("optional", VBool true)]]
      afu_db_clk_a = (db', Ok tt) /\
    inject_ports (VStr "afu.json")
      [VDict [("class", VStr "a"); ("optional", VBool true)]; rec_min 2]
      afu_db_clk_a = (db', Ok tt).
Proof.
  eexists.
  apply (inject_ports_updates_of_two_classes_commute (VStr "afu.json")
           afu_db_clk_a
           [("clk", VDict req_clk); ("a", VDict (req_named "a"))]
           [("class", VStr "clk"); ("min-entries", VInt 2)]
           [("class", VStr "a"); ("optional", VBool true)]
           req_clk (req_named "a") "clk" "a" eq_refl);
    try reflexivity.
  - discriminate.
  - simpl. intros k [<-|[<-|[]]]; auto.
  - simpl. intros k [<-|[<-|[]]]; auto.
Defined.

(** ** getAfuIfc: which descriptor comes back *)

Lemma clean_legacy_class (d : dict) :
  get "class" (clean_legacy d) =
  match get "name" d with Some n => Some n | None => get "class" d end.
Proof.
  unfold clean_legacy.
  set (d1 := match get "module-arguments" d with
             | Some v => set "module-ports" v (del "module-arguments" d)
             | None => d
             end).
  assert (Hn : get "name" d1 = get "name" d).
  { subst d1. destruct (get "module-arguments" d); auto.
    now rewrite get_set_other, get_del_other by discriminate. }
  assert (Hc : get "class" d1 = get "class" d).
  { subst d1. destruct (get "module-arguments" d); auto.
    now rewrite get_set_other, get_del_other by discriminate. }
  rewrite Hn. destruct (get "name" d) as [n|]; [|exact Hc].
  apply get_set_same.
Qed.

Lemma getitem_cases (v : value) (k : string) :
  (exists x, getitem v k = Ok x) \/ getitem v k = PyExc.
Proof.
  unfold getitem. destruct v as [| | | | |d]; auto.
  destruct (get k d); eauto.
Qed.

Lemma top_interface_cases (data : value) :
  top_interface data =
  match descriptor data with
  | Some d =>
      if mem "class" d || mem "name" d then Ok (clean_legacy d) else PyExc
  | None => PyExc
  end.
Proof.
  unfold top_interface, descriptor.
  destruct (getitem_cases data "afu-image") as [[img ->]| ->];
    cbn [bind]; auto.
  destruct (getitem_cases img "afu-top-interface") as [[ifc ->]| ->];
    cbn [bind]; auto.
  destruct ifc as [| | | | |d]; auto.
  cbn [getitem]. rewrite clean_legacy_class. unfold mem.
  destruct (get "name" d), (get "class" d); reflexivity.
Qed.

(** X12. [getAfuIfc] uses the descriptor of the file exactly when
    [afu-image], [afu-top-interface] is a dictionary that holds [class]
    or the legacy [name].  In every other case the result is the bare
    default interface, with the three entries [class], [file_path] and
    [file_name] and nothing else of the file (its [module-ports]
    included), or, without a default, the exit.  It never raises. *)
Theorem getAfuIfc_cases (default_ifc afu_json file_name data : value) :
  getAfuIfc default_ifc afu_json file_name data =
  match descriptor data with
  | Some d =>
      if mem "class" d || mem "name" d then
        Ok (set "file_name" file_name
              (set "file_path" afu_json (clean_legacy d)))
      else if truthy default_ifc then
        Ok [("class", default_ifc); ("file_path", afu_json);
            ("file_name", file_name)]
      else Exit (NoTopInterfaceClass afu_json)
  | None =>
      if truthy default_ifc then
        Ok [("class", default_ifc); ("file_path", afu_json);
            ("file_name", file_name)]
      else Exit (NoTopInterfaceClass afu_json)
  end.
Proof.
  unfold getAfuIfc. rewrite top_interface_cases.
  destruct (descriptor data) as [d|].
  - destruct (mem "class" d || mem "name" d); simpl; auto.
    destruct (truthy default_ifc); reflexivity.
  - destruct (truthy default_ifc); reflexivity.
Qed.

(** X13. On the path through the JSON file ([--ifc] not given, source
    lines 223 to 254), a descriptor that [getAfuIfc] returns always
    holds [class], holds the path and the base name of the file under
    [file_path] and [file_name], whatever the file said there, and holds
    neither of the legacy keys [module-arguments] and [name]. *)
Theorem getAfuIfc_result_shape (default_ifc afu_json file_name data : value)
    (afu_ifc : dict) :
  getAfuIfc default_ifc afu_json file_name data = Ok afu_ifc ->
  (exists c, get "class" afu_ifc = Some c) /\
  get "file_path" afu_ifc = Some afu_json /\
  get "file_name" afu_ifc = Some file_name /\
  get "module-arguments" afu_ifc = None /\
  get "name" afu_ifc = None.
Proof.
  unfold getAfuIfc. rewrite top_interface_cases.
  assert (D : truthy default_ifc = true ->
              Ok [("class", default_ifc); ("file_path", afu_json);
                  ("file_name", file_name)] = Ok afu_ifc ->
              (exists c, get "class" afu_ifc = Some c) /\
              get "file_path" afu_ifc = Some afu_json /\
              get "file_name" afu_ifc = Some file_name /\
              get "module-arguments" afu_ifc = None /\
              get "name" afu_ifc = None).
  { intros _ [= <-]. repeat split. eexists. reflexivity. }
  destruct (descriptor data) as [d|]; cbn [bind].
  - destruct (mem "class" d || mem "name" d) eqn:E; cbn [bind].
    + intros [= <-].
      destruct (clean_legacy_no_legacy d) as [H1 H2].
      split; [|split; [|split; [|split]]].
      * rewrite !get_set_other by discriminate.
        rewrite clean_legacy_class. unfold mem in E.
        destruct (get "name" d); [eauto|].
        destruct (get "class" d); [eauto | discriminate].
      * rewrite get_set_other by discriminate. apply get_set_same.
      * apply get_set_same.
      * now rewrite !get_set_other by discriminate.
      * now rewrite !get_set_other by discriminate.
    + destruct (truthy default_ifc); cbn [bind];
        [now apply D | intros H; discriminate H].
  - destruct (truthy default_ifc); cbn [bind];
      [now apply D | intros H; discriminate H].
Qed.

(** X14. When the descriptor of the file holds the legacy [name], its
    value becomes the [class] of the result; a [class] the file also
    holds is overwritten. *)
Theorem getAfuIfc_legacy_name_is_class
    (default_ifc afu_json file_name data : value) (d : dict) (n : value) :
  descriptor data = Some d ->
  get "name" d = Some n ->
  exists afu_ifc,
    getAfuIfc default_ifc afu_json file_name data = Ok afu_ifc /\
    get "class" afu_ifc = Some n.
Proof.
  intros Hd Hn. unfold getAfuIfc. rewrite top_interface_cases, Hd.
  unfold mem at 2. rewrite Hn, orb_true_r. cbn [bind].
  eexists. split; [reflexivity|].
  rewrite !get_set_other by discriminate.
  now rewrite clean_legacy_class, Hn.
Qed.

Lemma getAfuIfc_result_shape_witness :
  exists afu_ifc,
    getAfuIfc VNone (VStr "dir/afu.json") (VStr "afu")
      (afu_file afu_ifc_both) = Ok afu_ifc /\
    get "file_name" afu_ifc = Some (VStr "afu").
Proof.
  eexists. split; [reflexivity|].
  exact (proj1 (proj2 (proj2
           (getAfuIfc_result_shape VNone (VStr "dir/afu.json") (VStr "afu")
              (afu_file afu_ifc_both) _ eq_refl)))).
Defined.

Lemma getAfuIfc_legacy_name_is_class_witness :
  exists afu_ifc,
    getAfuIfc VNone (VStr "afu.json") (VStr "afu")
      (afu_file [("class", VStr "old"); ("name", VStr "ccip_std_afu")]) =
      Ok afu_ifc /\
    get "class" afu_ifc = Some (VStr "ccip_std_afu").
Proof.
  exact (getAfuIfc_legacy_name_is_class VNone (VStr "afu.json") (VStr "afu")
           (afu_file [("class", VStr "old"); ("name", VStr "ccip_std_afu")])
           [("class", VStr "old"); ("name", VStr "ccip_std_afu")]
           (VStr "ccip_std_afu") eq_refl eq_refl).
Defined.

(** ** Strings of search lists and paths *)

Lemma split_on_nonempty (sep : ascii) (s : string) :
  exists h t, split_on sep s = h :: t.
Proof.
  induction s as [|c r IH]; simpl; [eauto|].
  destruct (Ascii.eqb c sep); [eauto|].
  destruct IH as (h & t & ->). eauto.
Qed.

Lemma contains_app (ch : ascii) (a b : string) :
  contains ch (a ++ b) = contains ch a || contains ch b.
Proof.
  induction a as [|c r IH]; simpl; auto.
  now rewrite IH, orb_assoc.
Qed.

Lemma split_on_no_sep (sep : ascii) (s : string) :
  contains sep s = false -> split_on sep s = [s].
Proof.
  induction s as [|c r IH]; simpl; auto.
  intros H. apply orb_false_iff in H as [H1 H2].
  now rewrite H1, IH.
Qed.

Lemma split_on_app_sep (sep : ascii) (a b : string) :
  split_on sep (a ++ String sep b) =
  (split_on sep a ++ split_on sep b)%list.
Proof.
  induction a as [|c r IH]; simpl.
  - now rewrite Ascii.eqb_refl.
  - destruct (Ascii.eqb c sep); [now rewrite IH|].
    rewrite IH. destruct (split_on_nonempty sep r) as (h & t & ->).
    reflexivity.
Qed.

Lemma split_on_pieces (sep : ascii) (s : string) :
  Forall (fun p => contains sep p = false) (split_on sep s).
Proof.
  induction s as [|c r IH]; simpl.
  - repeat constructor.
  - destruct (Ascii.eqb c sep) eqn:E; [now constructor|].
    destruct (split_on sep r) as [|h t]; [repeat constructor; simpl;
                                           now rewrite E|].
    inversion IH; subst. constructor; auto. simpl. now rewrite E.
Qed.

Lemma last_piece_no_sep (sep : ascii) (s : string) :
  contains sep (last (split_on sep s) "") = false.
Proof.
  pose proof (split_on_pieces sep s) as H.
  destruct (split_on_nonempty sep s) as (h & t & E). rewrite E in *.
  assert (Hin : In (last (h :: t) "") (h :: t)).
  { destruct (exists_last (l := h :: t)) as (l' & a & ->); [discriminate|].
    rewrite last_last. apply in_or_app. right. now left. }
  exact (proj1 (Forall_forall _ _) H _ Hin).
Qed.

Lemma last_split_appended (cur value : string) :
  contains ":" value = false ->
  last (split_on ":" (cur ++ ":" ++ value)) "" = value.
Proof.
  intros H. simpl. rewrite split_on_app_sep, (split_on_no_sep _ _ H).
  apply last_last.
Qed.

Lemma rstrip_no_trailing (ch : ascii) (s : string) :
  rstrip ch (s ++ String ch "") = rstrip ch s.
Proof.
  induction s as [|c r IH]; simpl.
  - now rewrite Ascii.eqb_refl.
  - now rewrite IH.
Qed.

Lemma rstrip_ends (s : string) : ends_with_sep (rstrip "/" s) = false.
Proof.
  induction s as [|c r IH]; simpl; auto.
  destruct (rstrip "/" r) as [|c' r'] eqn:E.
  - destruct (Ascii.eqb c "/") eqn:Ec; simpl; auto.
  - simpl in *. exact IH.
Qed.

Lemma join2_empty (path b : string) :
  join2 path b = "" -> path = "" /\ b = "".
Proof.
  unfold join2. destruct b as [|c r]; simpl.
  - destruct (String.eqb_spec path ""); simpl.
    + subst. auto.
    + destruct (ends_with_sep path); destruct path; simpl; try discriminate;
        auto.
  - destruct (Ascii.eqb c "/"); [discriminate|].
    destruct (String.eqb path "" || ends_with_sep path);
      destruct path; discriminate.
Qed.

Lemma join2_contains_colon (path b : string) :
  starts_with_sep b = false ->
  contains ":" (join2 path b) = contains ":" path || contains ":" b.
Proof.
  intros H. unfold join2. rewrite H.
  destruct (String.eqb path "" || ends_with_sep path);
    rewrite !contains_app; auto.
Qed.

(** ** Facts about the environment *)

Lemma env_get_set_same (k v : string) (env : environ) :
  env_get k (env_set k v env) = Some v.
Proof.
  induction env as [|[k' v'] r IH]; simpl.
  - now rewrite String.eqb_refl.
  - destruct (String.eqb k k') eqn:E; simpl; rewrite ?String.eqb_refl, ?E;
      auto.
Qed.

Lemma env_get_set_other (k k' v : string) (env : environ) :
  k <> k' -> env_get k' (env_set k v env) = env_get k' env.
Proof.
  intros Hne. induction env as [|[k0 v0] r IH]; simpl.
  - destruct (String.eqb_spec k' k); congruence.
  - destruct (String.eqb_spec k k0); simpl.
    + subst k0. destruct (String.eqb_spec k' k); congruence.
    + now rewrite IH.
Qed.

Lemma env_set_same_id (k v : string) (env : environ) :
  env_get k env = Some v -> env_set k v env = env.
Proof.
  induction env as [|[k' v'] r IH]; simpl; [discriminate|].
  destruct (String.eqb_spec k k').
  - intros [= ->]. now subst.
  - intros H. now rewrite IH.
Qed.

(** ** updCmdEnv, getHWLibPath and getCmdEnv *)

Lemma updCmdEnv_last (env : environ) (key value : string) :
  contains ":" value = false ->
  exists lst,
    env_get key (updCmdEnv env key value) = Some lst /\
    last (split_on ":" lst) "" = value /\
    match env_get key env with
    | Some cur => lst = cur \/ lst = cur ++ ":" ++ value
    | None => lst = value
    end.
Proof.
  intros Hv. unfold updCmdEnv.
  destruct (env_get key env) as [cur|] eqn:E.
  - destruct (String.eqb_spec (last (split_on ":" cur) "") value) as [L|L];
      simpl.
    + exists cur. auto.
    + exists (cur ++ ":" ++ value). rewrite env_get_set_same.
      split; [reflexivity|]. split; [now apply last_split_appended | auto].
  - exists value. rewrite env_get_set_same.
    split; [reflexivity|]. split; [|reflexivity].
    now rewrite (split_on_no_sep _ _ Hv).
Qed.

Lemma updCmdEnv_other (env : environ) (key value k : string) :
  k <> key -> env_get k (updCmdEnv env key value) = env_get k env.
Proof.
  intros Hne. unfold updCmdEnv. destruct (env_get key env) as [cur|].
  - destruct (negb _); auto. apply env_get_set_other. congruence.
  - apply env_get_set_other. congruence.
Qed.

Lemma updCmdEnv_fixed (env : environ) (key value lst : string) :
  env_get key env = Some lst ->
  last (split_on ":" lst) "" = value ->
  updCmdEnv env key value = env.
Proof.
  intros E L. unfold updCmdEnv. rewrite E, L, String.eqb_refl.
  reflexivity.
Qed.

(** X15. For a directory [value] without a colon, [updCmdEnv] leaves a
    search list under [key] whose last component is [value]; the list
    that was there is kept as it was, or kept and followed by a colon
    and [value]; no other variable changes. *)
Theorem updCmdEnv_appends_value (env : environ) (key value : string) :
  contains ":" value = false ->
  (exists lst,
     env_get key (updCmdEnv env key value) = Some lst /\
     last (split_on ":" lst) "" = value /\
     match env_get key env with
     | Some cur => lst = cur \/ lst = cur ++ ":" ++ value
     | None => lst = value
     end) /\
  forall k, k <> key ->
            env_get k (updCmdEnv env key value) = env_get k env.
Proof.
  intros Hv. split; [now apply updCmdEnv_last|].
  intros k Hne. now apply updCmdEnv_other.
Qed.

Lemma updCmdEnv_appends_value_witness :
  env_get "OPAE_PLATFORM_DB_PATH"
    (updCmdEnv [("OPAE_PLATFORM_DB_PATH", "/u/db")]
       "OPAE_PLATFORM_DB_PATH" "/lib/platform/platform_db") =
  Some "/u/db:/lib/platform/platform_db".
Proof.
  destruct (updCmdEnv_appends_value [("OPAE_PLATFORM_DB_PATH", "/u/db")]
              "OPAE_PLATFORM_DB_PATH" "/lib/platform/platform_db" eq_refl)
    as [(lst & E & _ & [H|H]) _].
  - exfalso. rewrite H in E. discriminate E.
  - rewrite E, H. reflexivity.
Defined.

(** X16. For a directory without a colon, a second [updCmdEnv] with the
    same arguments changes nothing: the search list does not grow when
    the call is repeated. *)
Theorem updCmdEnv_idempotent (env : environ) (key value : string) :
  contains ":" value = false ->
  updCmdEnv (updCmdEnv env key value) key value = updCmdEnv env key value.
Proof.
  intros Hv.
  destruct (updCmdEnv_last env key value Hv) as (lst & E & L & _).
  now apply updCmdEnv_fixed with (lst := lst).
Qed.

Lemma updCmdEnv_idempotent_witness :
  updCmdEnv (updCmdEnv [("P", "/a")] "P" "/b") "P" "/b" =
  [("P", "/a:/b")].
Proof.
  rewrite (updCmdEnv_idempotent [("P", "/a")] "P" "/b" eq_refl).
  reflexivity.
Defined.

(** X17. A value that holds a colon is never recognised as present: the
    test looks at the last colon separated component, which cannot equal
    it, so every call on a variable that is set appends the value
    again. *)
Theorem updCmdEnv_colon_value_grows (env : environ)
    (key value cur : string) :
  contains ":" value = true ->
  env_get key env = Some cur ->
  updCmdEnv env key value = env_set key (cur ++ ":" ++ value) env.
Proof.
  intros Hv E. unfold updCmdEnv. rewrite E.
  destruct (String.eqb_spec (last (split_on ":" cur) "") value) as [L|L];
    [|reflexivity].
  pose proof (last_piece_no_sep ":" cur) as H. rewrite L in H. congruence.
Qed.

Lemma updCmdEnv_colon_value_grows_witness :
  updCmdEnv (updCmdEnv [] "P" "/a:b") "P" "/a:b" = [("P", "/a:b:/a:b")].
Proof.
  rewrite (updCmdEnv_colon_value_grows (updCmdEnv [] "P" "/a:b") "P" "/a:b"
             "/a:b" eq_refl eq_refl).
  reflexivity.
Defined.

(** X18. [getHWLibPath] returns a directory only when the file
    [fme-platform-class.txt] exists under it.  Given [--lib], it returns
    that argument as it is and the environment afterwards holds it under
    [BBS_LIB_PATH], also when the directory is refused; without [--lib]
    the environment is not changed. *)
Theorem getHWLibPath_checked (path_exists : string -> bool)
    (lib : option string) (env : environ) :
  (forall d,
     snd (getHWLibPath path_exists lib env) = inl d ->
     path_exists (join d ["fme-platform-class.txt"]) = true) /\
  (forall l,
     lib = Some l ->
     env_get "BBS_LIB_PATH" (fst (getHWLibPath path_exists lib env)) =
       Some l /\
     (snd (getHWLibPath path_exists lib env) = inl l \/
      snd (getHWLibPath path_exists lib env) = inr (NotAHwLibDir l))) /\
  (lib = None -> fst (getHWLibPath path_exists lib env) = env).
Proof.
  unfold getHWLibPath. split; [|split].
  - intros d.
    destruct lib as [l|];
      [|destruct (env_get "BBS_LIB_PATH" env);
        [|destruct (env_get "OPAE_PLATFORM_ROOT" env)]];
      cbv zeta; try discriminate;
      match goal with
      | |- context [path_exists ?p] =>
          destruct (path_exists p) eqn:E; simpl; intros [= <-]; exact E
      end.
  - intros l ->. cbv zeta.
    destruct (path_exists (join l ["fme-platform-class.txt"])); simpl;
      rewrite env_get_set_same; auto.
  - intros ->.
    destruct (env_get "BBS_LIB_PATH" env);
      [|destruct (env_get "OPAE_PLATFORM_ROOT" env)]; cbv zeta;
      try reflexivity;
      match goal with
      | |- context [path_exists ?p] => now destruct (path_exists p)
      end.
Qed.

Lemma getHWLibPath_checked_witness :
  getHWLibPath (fun p => String.eqb p "/lib/fme-platform-class.txt")
    (Some "/lib") [] = ([("BBS_LIB_PATH", "/lib")], inl "/lib") /\
  String.eqb (join "/lib" ["fme-platform-class.txt"])
    "/lib/fme-platform-class.txt" = true.
Proof.
  split; [reflexivity|].
  exact (proj1 (getHWLibPath_checked
                  (fun p => String.eqb p "/lib/fme-platform-class.txt")
                  (Some "/lib") []) "/lib" eq_refl).
Defined.

Lemma getHWLibPath_eq (path_exists : string -> bool) (lib : option string)
    (env : environ) :
  getHWLibPath path_exists lib env =
  (env_with_lib lib env,
   match hw_lib_candidate lib env with
   | None => inr HwLibNotSpecified
   | Some d =>
       if path_exists (join d ["fme-platform-class.txt"]) then inl d
       else inr (NotAHwLibDir d)
   end).
Proof.
  unfold getHWLibPath, env_with_lib, hw_lib_candidate.
  destruct lib as [l|];
    [|destruct (env_get "BBS_LIB_PATH" env);
      [|destruct (env_get "OPAE_PLATFORM_ROOT" env)]];
    cbv zeta; try reflexivity;
    match goal with
    | |- context [path_exists ?p] => now destruct (path_exists p)
    end.
Qed.

Lemma getCmdEnv_eq (path_exists : string -> bool) (lib : option string)
    (env : environ) :
  getCmdEnv path_exists lib env =
  match lib, env_get "BBS_LIB_PATH" env with
  | None, None => (env, None)
  | _, _ =>
      match hw_lib_candidate lib env with
      | None => (env_with_lib lib env, Some HwLibNotSpecified)
      | Some d =>
          if path_exists (join d ["fme-platform-class.txt"]) then
            (with_search_paths path_exists d (env_with_lib lib env), None)
          else (env_with_lib lib env, Some (NotAHwLibDir d))
      end
  end.
Proof.
  unfold getCmdEnv. rewrite getHWLibPath_eq.
  destruct lib as [l|]; [|destruct (env_get "BBS_LIB_PATH" env) eqn:E];
    try reflexivity;
    destruct (hw_lib_candidate _ env) as [d|]; try reflexivity;
    destruct (path_exists (join d ["fme-platform-class.txt"]));
    reflexivity.
Qed.

Lemma env_with_lib_other (lib : option string) (env : environ) (k : string) :
  k <> "BBS_LIB_PATH" -> env_get k (env_with_lib lib env) = env_get k env.
Proof.
  intros Hne. destruct lib; simpl; auto.
  apply env_get_set_other. congruence.
Qed.

Lemma with_search_paths_other (path_exists : string -> bool) (d : string)
    (env : environ) (k : string) :
  k <> "OPAE_PLATFORM_DB_PATH" -> k <> "OPAE_AFU_TOP_IFC_DB_PATH" ->
  env_get k (with_search_paths path_exists d env) = env_get k env.
Proof.
  intros H1 H2. unfold with_search_paths.
  destruct (path_exists (join d ["platform"; "afu_top_ifc_db"]));
    destruct (path_exists (join d ["platform"; "platform_db"]));
    now rewrite ?updCmdEnv_other by assumption.
Qed.

(** X19. Whatever [getCmdEnv] does and however it ends, the only
    variables of the environment that can differ afterwards are
    [BBS_LIB_PATH], [OPAE_PLATFORM_DB_PATH] and
    [OPAE_AFU_TOP_IFC_DB_PATH]. *)
Theorem getCmdEnv_touches_three_variables (path_exists : string -> bool)
    (lib : option string) (env : environ) (k : string) :
  k <> "BBS_LIB_PATH" -> k <> "OPAE_PLATFORM_DB_PATH" ->
  k <> "OPAE_AFU_TOP_IFC_DB_PATH" ->
  env_get k (fst (getCmdEnv path_exists lib env)) = env_get k env.
Proof.
  intros H1 H2 H3. rewrite getCmdEnv_eq.
  assert (G : env_get k
                (fst
                   match hw_lib_candidate lib env with
                   | None => (env_with_lib lib env, Some HwLibNotSpecified)
                   | Some d =>
                       if path_exists (join d ["fme-platform-class.txt"])
                       then (with_search_paths path_exists d
                               (env_with_lib lib env), None)
                       else (env_with_lib lib env, Some (NotAHwLibDir d))
                   end) = env_get k env).
  { destruct (hw_lib_candidate lib env) as [d|];
      [destruct (path_exists (join d ["fme-platform-class.txt"]))|];
      cbn [fst]; rewrite ?with_search_paths_other by assumption;
      now apply env_with_lib_other. }
  destruct lib as [l|]; [exact G|].
  destruct (env_get "BBS_LIB_PATH" env); [exact G | reflexivity].
Qed.

Lemma getCmdEnv_touches_three_variables_witness :
  env_get "HOME"
    (fst (getCmdEnv (fun _ => true) (Some "/lib") [("HOME", "/home/u")])) =
  Some "/home/u".
Proof.
  rewrite (getCmdEnv_touches_three_variables (fun _ => true) (Some "/lib")
             [("HOME", "/home/u")] "HOME");
    [reflexivity | discriminate | discriminate | discriminate].
Defined.

Lemma join_platform_no_colon (d sub : string) :
  contains ":" d = false -> contains ":" sub = false ->
  starts_with_sep sub = false ->
  contains ":" (join d ["platform"; sub]) = false.
Proof.
  intros Hd Hs Hsep. unfold join. simpl fold_left.
  rewrite (join2_contains_colon _ sub Hsep).
  rewrite (join2_contains_colon d "platform" eq_refl).
  now rewrite Hd, Hs.
Qed.

Ltac upd_again H :=
  match goal with
  | |- updCmdEnv (updCmdEnv ?e ?k ?v) ?k ?v = _ =>
      let lst := fresh "lst" in
      destruct (updCmdEnv_last e k v H) as (lst & ? & ? & _);
      eapply updCmdEnv_fixed; eassumption
  end.

Lemma with_search_paths_idempotent (path_exists : string -> bool)
    (d : string) (env : environ) :
  contains ":" d = false ->
  with_search_paths path_exists d (with_search_paths path_exists d env) =
  with_search_paths path_exists d env.
Proof.
  intros Hd. unfold with_search_paths.
  pose proof (join_platform_no_colon d "platform_db" Hd eq_refl eq_refl)
    as Hp.
  pose proof (join_platform_no_colon d "afu_top_ifc_db" Hd eq_refl eq_refl)
    as Hi.
  set (p := join d ["platform"; "platform_db"]) in *.
  set (i := join d ["platform"; "afu_top_ifc_db"]) in *.
  destruct (path_exists i), (path_exists p); auto.
  - destruct (updCmdEnv_last env "OPAE_PLATFORM_DB_PATH" p Hp)
      as (lst & E & L & _).
    rewrite (updCmdEnv_fixed
               (updCmdEnv (updCmdEnv env "OPAE_PLATFORM_DB_PATH" p)
                  "OPAE_AFU_TOP_IFC_DB_PATH" i)
               "OPAE_PLATFORM_DB_PATH" p lst); auto.
    + upd_again Hi.
    + rewrite updCmdEnv_other by discriminate. exact E.
  - upd_again Hi.
  - upd_again Hp.
Qed.

(** X20. Every command run by the script calls [getCmdEnv], which
    writes into the process environment.  When the release directory it
    settles on holds no colon and the first call ends without exit, a
    further call, with the same files in place, returns the same
    environment: the search lists do not grow from one command to the
    next. *)
Theorem getCmdEnv_idempotent (path_exists : string -> bool)
    (lib : option string) (env env1 : environ) :
  getCmdEnv path_exists lib env = (env1, None) ->
  (forall d, hw_lib_candidate lib env = Some d -> contains ":" d = false) ->
  getCmdEnv path_exists lib env1 = (env1, None).
Proof.
  rewrite !getCmdEnv_eq. intros H Hcolon.
  destruct lib as [l|].
  - cbn [env_with_lib hw_lib_candidate] in *.
    destruct (path_exists (join l ["fme-platform-class.txt"]));
      [|discriminate H].
    injection H as <-.
    rewrite (env_set_same_id "BBS_LIB_PATH" l).
    + now rewrite with_search_paths_idempotent by auto.
    + rewrite with_search_paths_other by discriminate.
      apply env_get_set_same.
  - destruct (env_get "BBS_LIB_PATH" env) as [v|] eqn:E.
    + cbn [env_with_lib hw_lib_candidate] in *. rewrite E in *.
      destruct (path_exists (join (rstrip "/" v) ["fme-platform-class.txt"]))
        eqn:Ex; [|discriminate H].
      injection H as <-.
      rewrite with_search_paths_other by discriminate. rewrite E, Ex.
      now rewrite with_search_paths_idempotent by auto.
    + injection H as <-. now rewrite E.
Qed.

Lemma getCmdEnv_idempotent_witness :
  getCmdEnv (fun _ => true) (Some "/lib")
    [("OPAE_PLATFORM_DB_PATH", "/u:/lib/platform/platform_db");
     ("BBS_LIB_PATH", "/lib");
     ("OPAE_AFU_TOP_IFC_DB_PATH", "/lib/platform/afu_top_ifc_db")] =
  ([("OPAE_PLATFORM_DB_PATH", "/u:/lib/platform/platform_db");
    ("BBS_LIB_PATH", "/lib");
    ("OPAE_AFU_TOP_IFC_DB_PATH", "/lib/platform/afu_top_ifc_db")], None).
Proof.
  apply (getCmdEnv_idempotent (fun _ => true) (Some "/lib")
           [("OPAE_PLATFORM_DB_PATH", "/u")]).
  - reflexivity.
  - intros d [= <-]. reflexivity.
Defined.

(** ** getSearchPath and getOfsPlatIfPath *)

Lemma release_dir_nonempty (root default_dir : string) :
  join root ["hw"; "lib"; "platform"; default_dir] <> "".
Proof.
  unfold join. simpl fold_left. intros H.
  apply join2_empty in H as [H _].
  apply join2_empty in H as [_ H]. discriminate H.
Qed.

Lemma filter_nonempty (l : list string) :
  Forall (fun p => p <> "")
    (filter (fun p => negb (String.eqb p "")) l).
Proof.
  apply Forall_forall. intros p Hin. apply filter_In in Hin as [_ H].
  intros ->. discriminate H.
Qed.

(** X21. The search path computed by [getSearchPath] always ends with
    the directory of the SDK, [plat_db_root] joined with the default
    directory.  Every entry before it is a non-empty string.  The
    non-empty components of the environment variable come first, in
    their order; empty components are dropped.  With neither that
    variable nor [OPAE_PLATFORM_ROOT] set, the SDK directory is the whole
    path. *)
Theorem getSearchPath_entries (isdir : string -> bool)
    (plat_db_root : string) (env : environ) (env_name default_dir : string) :
  let path := getSearchPath isdir plat_db_root env env_name default_dir in
  last path "" = join plat_db_root [default_dir] /\
  Forall (fun p => p <> "") (removelast path) /\
  (forall s,
     env_get env_name env = Some s ->
     exists rest,
       path = (filter (fun p => negb (String.eqb p "")) (split_on ":" s)
                 ++ rest)%list) /\
  (env_get env_name env = None ->
   env_get "OPAE_PLATFORM_ROOT" env = None ->
   path = [join plat_db_root [default_dir]]).
Proof.
  cbv zeta. unfold getSearchPath.
  set (user := match env_get env_name env with
               | Some s =>
                   filter (fun p => negb (String.eqb p "")) (split_on ":" s)
               | None => []
               end).
  set (dflt := join plat_db_root [default_dir]).
  assert (Hu : Forall (fun p => p <> "") user).
  { subst user. destruct (env_get env_name env); [apply filter_nonempty|].
    constructor. }
  set (path := match env_get "OPAE_PLATFORM_ROOT" env with
               | Some root =>
                   if isdir (join root ["hw"; "lib"; "platform"; default_dir])
                   then (user ++
                         [join root ["hw"; "lib"; "platform"; default_dir]])%list
                   else user
               | None => user
               end).
  assert (Hp : Forall (fun p => p <> "") path /\
               exists rel, path = (user ++ rel)%list).
  { subst path. destruct (env_get "OPAE_PLATFORM_ROOT" env) as [root|].
    - destruct (isdir _).
      + split; [|eauto]. apply Forall_app. split; [exact Hu|].
        constructor; [apply release_dir_nonempty | constructor].
      + split; [exact Hu|]. exists []. now rewrite app_nil_r.
    - split; [exact Hu|]. exists []. now rewrite app_nil_r. }
  destruct Hp as [Hp (rel & Hrel)].
  split; [apply last_last|]. split; [now rewrite removelast_last|]. split.
  - intros s Hs. exists (rel ++ [dflt])%list. rewrite Hrel, <- app_assoc.
    subst user. now rewrite Hs.
  - intros Hn Hr. subst path user. now rewrite Hn, Hr.
Qed.

Lemma getSearchPath_entries_witness :
  last (getSearchPath (fun _ => false) "/sdk/db" [("P", ":/a::/b:")] "P"
          "platform_db") "" = "/sdk/db/platform_db" /\
  exists rest,
    getSearchPath (fun _ => false) "/sdk/db" [("P", ":/a::/b:")] "P"
      "platform_db" = ("/a" :: "/b" :: rest)%list.
Proof.
  destruct (getSearchPath_entries (fun _ => false) "/sdk/db"
              [("P", ":/a::/b:")] "P" "platform_db")
    as (Hlast & _ & Huser & _).
  split; [exact Hlast|]. exact (Huser ":/a::/b:" eq_refl).
Defined.

Lemma join_rstrip (root sub : string) :
  starts_with_sep sub = false ->
  join (rstrip "/" root) [sub] = subdir_of root sub.
Proof.
  intros H. unfold join, subdir_of. simpl fold_left. unfold join2.
  rewrite H, rstrip_ends, orb_false_r.
  destruct (String.eqb_spec (rstrip "/" root) "") as [->|]; reflexivity.
Qed.

(** X22. A directory returned by [getOfsPlatIfPath] exists.  It is the
    directory [hw/lib/build/platform/ofs_plat_if] under
    [OPAE_PLATFORM_ROOT] or [build/platform/ofs_plat_if] under
    [BBS_LIB_PATH], the variable taken without its trailing slashes; for
    a variable made of slashes only, the root directory included, it is
    that path taken relative to the working directory. *)
Theorem getOfsPlatIfPath_result (isdir : string -> bool) (env : environ)
    (d : string) :
  getOfsPlatIfPath isdir env = Some d ->
  isdir d = true /\
  ((exists root,
      env_get "OPAE_PLATFORM_ROOT" env = Some root /\
      d = subdir_of root "hw/lib/build/platform/ofs_plat_if") \/
   (exists lib,
      env_get "BBS_LIB_PATH" env = Some lib /\
      d = subdir_of lib "build/platform/ofs_plat_if")).
Proof.
  unfold getOfsPlatIfPath. cbv zeta.
  assert (B : match env_get "BBS_LIB_PATH" env with
              | Some lib =>
                  if isdir (join (rstrip "/" lib)
                              ["build/platform/ofs_plat_if"])
                  then Some (join (rstrip "/" lib)
                               ["build/platform/ofs_plat_if"])
                  else None
              | None => None
              end = Some d ->
              isdir d = true /\
              exists lib,
                env_get "BBS_LIB_PATH" env = Some lib /\
                d = subdir_of lib "build/platform/ofs_plat_if").
  { destruct (env_get "BBS_LIB_PATH" env) as [lib|]; [|discriminate].
    rewrite join_rstrip by reflexivity.
    destruct (isdir (subdir_of lib _)) eqn:E; [|discriminate].
    intros [= <-]. split; [exact E|]. eauto. }
  destruct (env_get "OPAE_PLATFORM_ROOT" env) as [root|].
  - rewrite join_rstrip by reflexivity.
    destruct (isdir (subdir_of root _)) eqn:E.
    + intros [= <-]. split; [exact E|]. left. eauto.
    + intros H. destruct (B H) as [H1 H2]. auto.
  - intros H. destruct (B H) as [H1 H2]. auto.
Qed.

(** With the root directory for [OPAE_PLATFORM_ROOT] the path is
    relative. *)
Lemma getOfsPlatIfPath_result_witness :
  getOfsPlatIfPath (fun _ => true) [("OPAE_PLATFORM_ROOT", "/")] =
    Some "hw/lib/build/platform/ofs_plat_if" /\
  (fun _ : string => true) "hw/lib/build/platform/ofs_plat_if" = true.
Proof.
  split; [reflexivity|].
  exact (proj1 (getOfsPlatIfPath_result (fun _ => true)
                  [("OPAE_PLATFORM_ROOT", "/")]
                  "hw/lib/build/platform/ofs_plat_if" eq_refl)).
Defined.

(** X23. A slash added at the end of [OPAE_PLATFORM_ROOT] or of
    [BBS_LIB_PATH] does not change what [getOfsPlatIfPath] returns. *)
Theorem getOfsPlatIfPath_trailing_slash (isdir : string -> bool)
    (env : environ) (v : string) :
  getOfsPlatIfPath isdir (env_set "OPAE_PLATFORM_ROOT" (v ++ "/") env) =
  getOfsPlatIfPath isdir (env_set "OPAE_PLATFORM_ROOT" v env) /\
  getOfsPlatIfPath isdir (env_set "BBS_LIB_PATH" (v ++ "/") env) =
  getOfsPlatIfPath isdir (env_set "BBS_LIB_PATH" v env).
Proof.
  unfold getOfsPlatIfPath. split.
  - rewrite !env_get_set_same, !env_get_set_other by discriminate.
    now rewrite rstrip_no_trailing.
  - rewrite !env_get_set_same, !env_get_set_other by discriminate.
    now rewrite rstrip_no_trailing.
Qed.
